(** * CAT-ELIMINATOR: the detection and actuation controller

    A shallow embedding of [catdetector-v1.py]: the per-minute rate limit and
    cooldown of [activate_pump], the error display, the event log and the
    body of the sampling loop of [detect_motion].

    Conventions.
    - [utime.time()] is an integer number of seconds; the world carries a
      millisecond clock so that [asyncio.sleep(0.1)] is representable, and
      [utime_time] is its floor in seconds.
    - A distance is a MicroPython float; it is modelled as a rational [Q]
      (every float is one).  Comparisons are exact; the one subtraction
      [max - min] rounds, by the rounding [round] of the port's float
      format, which the development takes as a parameter.
    - Every effect on a collaborator (relay pin, OLED, log file, sleeping)
      is appended to the chronological list [events] of the world.
    - An [await] either resumes or has [CancelledError] thrown into it. *)

From Stdlib Require Import ZArith QArith Qminmax List Ascii String Bool Lia Lqa.
From ExtLib Require Import Structures.Monad.
Import ListNotations.
Import MonadNotation.
Open Scope Z_scope.
Open Scope monad_scope.

(** ** Constants (lines 19-22) *)

Definition PUMP_ACTIVATION_TIME : Z := 2.
Definition COOLDOWN_PERIOD : Z := 5.
Definition INITIALIZATION_TIME : Z := 60.
Definition MAX_ACTIVATIONS_PER_MINUTE : Z := 10.

(** ** Values, exceptions and collaborator events *)

(** Modelled from the spec: the range sensor driver ([hcsr04], behind
    [ultrasonic.distance_cm()]) is not among the sources.  Following the
    interface [RangeSensor::read() -> Option<float_cm>], a reading is a
    distance in centimetres or Python's [None] for an invalid or missing
    one. *)
Inductive reading : Type :=
| Num (cm : Q)
| PyNone.

Inductive exn : Type :=
| TypeError
| ValueError
| CancelledError.

Inductive await_outcome : Type :=
| Resumed
| Cancelled.

(** One line of [detector_log.txt]; [log_stamp] is the clock value whose
    [utime.localtime()] fields the line prints. *)
Record log_entry : Type := mkLogEntry {
  log_stamp : Z;
  log_event_type : string;
  log_distance : reading;
  log_pir : Z
}.

Inductive io_event : Type :=
| RelayOn
| RelayOff
| Sleep (ms : Z)
| OledFill (c : Z)
| OledText (s : string) (x y : Z)
| OledShow
| FileAppend (e : log_entry).

(** ** The world: clock, relay pin, collaborator trace and the three
    module-level globals (lines 32-34) *)

Record World : Type := mkWorld {
  clock : Z;
  relay : bool;
  events : list io_event;
  last_activation_time : Z;
  activations_count : Z;
  last_activation_minute : Z
}.

(** The world at start-up: the globals as lines 32-34 set them, nothing yet
    on the trace, and the relay pin, configured as an output at line 26
    without a value, at its reset level (off). *)
Definition initial_world (boot_clock : Z) : World :=
  mkWorld boot_clock false [] 0 0 0.

(** ** A state monad whose exceptions keep the world they were raised in *)

Inductive outcome (A : Type) : Type :=
| Ret (a : A)
| Raise (e : exn).
Arguments Ret {A} a.
Arguments Raise {A} e.

Definition M (A : Type) : Type := World -> outcome A * World.

#[global] Instance Monad_outcome : Monad outcome := {
  ret := fun _ a => Ret a;
  bind := fun _ _ c k => match c with Ret a => k a | Raise e => Raise e end
}.

#[global] Instance Monad_M : Monad M := {
  ret := fun _ a w => (Ret a, w);
  bind := fun _ _ c k w =>
    match c w with
    | (Ret a, w') => k a w'
    | (Raise e, w') => (Raise e, w')
    end
}.

Definition eval {A : Type} (c : outcome A) : M A := fun w => (c, w).

Definition emit (e : io_event) : M unit :=
  fun w => (Ret tt, mkWorld (clock w) (relay w) (events w ++ [e])
                            (last_activation_time w) (activations_count w)
                            (last_activation_minute w)).

Definition utime_time : M Z := fun w => (Ret (clock w / 1000), w).

Definition relay_on : M unit :=
  fun w => (Ret tt, mkWorld (clock w) true (events w ++ [RelayOn])
                            (last_activation_time w) (activations_count w)
                            (last_activation_minute w)).

Definition relay_off : M unit :=
  fun w => (Ret tt, mkWorld (clock w) false (events w ++ [RelayOff])
                            (last_activation_time w) (activations_count w)
                            (last_activation_minute w)).

(** [await asyncio.sleep(ms / 1000)]: resumes after [ms] milliseconds, or the
    task is cancelled while suspended and the exception surfaces here. *)
Definition asyncio_sleep (ms : Z) (o : await_outcome) : M unit :=
  fun w =>
    match o with
    | Resumed => (Ret tt, mkWorld (clock w + ms) (relay w) (events w ++ [Sleep ms])
                                  (last_activation_time w) (activations_count w)
                                  (last_activation_minute w))
    | Cancelled => (Raise CancelledError, w)
    end.

Definition get_last_activation_time : M Z := fun w => (Ret (last_activation_time w), w).
Definition get_activations_count : M Z := fun w => (Ret (activations_count w), w).
Definition get_last_activation_minute : M Z := fun w => (Ret (last_activation_minute w), w).

Definition set_last_activation_time (v : Z) : M unit :=
  fun w => (Ret tt, mkWorld (clock w) (relay w) (events w) v
                            (activations_count w) (last_activation_minute w)).
Definition set_activations_count (v : Z) : M unit :=
  fun w => (Ret tt, mkWorld (clock w) (relay w) (events w)
                            (last_activation_time w) v (last_activation_minute w)).
Definition set_last_activation_minute (v : Z) : M unit :=
  fun w => (Ret tt, mkWorld (clock w) (relay w) (events w)
                            (last_activation_time w) (activations_count w) v).

(** ** [display_error] (lines 64-68) and [display_status] (lines 70-78) *)

Definition display_error (message : string) : M unit :=
  emit (OledFill 0) ;;
  emit (OledText "ERROR:" 0 0) ;;
  emit (OledText message 0 10) ;;
  emit OledShow.

Definition display_status (status last_detection : string) : M unit :=
  emit (OledFill 0) ;;
  (if String.eqb status "watching" then emit (OledText "^_^" 56 0)
   else if String.eqb status "angry" then emit (OledText ">_<" 56 0)
   else ret tt) ;;
  emit (OledText ("Status: " ++ status) 0 20) ;;
  emit (OledText ("Last: " ++ last_detection) 0 30) ;;
  emit OledShow.

(** ** [log_event] (lines 36-44) *)

(** The format [{:.2f}] accepts a number only. *)
Definition log_event (event_type : string) (distance : reading) (pir_value : Z) : M unit :=
  timestamp <- utime_time ;;
  match distance with
  | Num _ => emit (FileAppend (mkLogEntry timestamp event_type distance pir_value))
  | PyNone => fun w => (Raise TypeError, w)
  end.

(** ** [activate_pump] (lines 46-62) *)

(** Lines 51-53: the minute rollover. *)
Definition rollover (current_minute : Z) : M unit :=
  last_minute <- get_last_activation_minute ;;
  if negb (current_minute =? last_minute) then
    set_activations_count 0 ;;
    set_last_activation_minute current_minute
  else ret tt.

Definition activate_pump (hold : await_outcome) : M unit :=
  current_time <- utime_time ;;
  let current_minute := current_time / 60 in
  rollover current_minute ;;
  last <- get_last_activation_time ;;
  count <- get_activations_count ;;
  if (COOLDOWN_PERIOD <? current_time - last) && (count <? MAX_ACTIVATIONS_PER_MINUTE) then
    relay_on ;;
    asyncio_sleep (1000 * PUMP_ACTIVATION_TIME) hold ;;
    relay_off ;;
    set_last_activation_time current_time ;;
    count <- get_activations_count ;;
    set_activations_count (count + 1)
  else if MAX_ACTIVATIONS_PER_MINUTE <=? count then
    display_error "Too many activations"
  else ret tt.

(** ** Floating point *)

(** A format that holds every value it meets: nothing is rounded.  It is the
    instance at which sample runs are evaluated, their differences being
    small integers and halves, exact in every binary format. *)
Definition unrounded (q : Q) : Q := q.

(** The float format depends on the MicroPython port.  The subtraction of
    line 94 yields [round] of the exact difference, [round] being the
    rounding of that format; everything from here on holds for every
    [round], and what is needed of it is assumed where it is used. *)
Section Rounding.

Variable round : Q -> Q.

(** ** Python comparisons and [max] / [min] over a list *)

Definition Qltb (x y : Q) : bool := negb (Qle_bool y x).

(** [a < b]: defined between numbers, [TypeError] when either is [None]. *)
Definition py_lt (a b : reading) : outcome bool :=
  match a, b with
  | Num x, Num y => Ret (Qltb x y)
  | _, _ => Raise TypeError
  end.

Definition py_gt (a b : reading) : outcome bool := py_lt b a.

Definition py_sub (a b : reading) : outcome reading :=
  match a, b with
  | Num x, Num y => Ret (Num (round (x - y)%Q))
  | _, _ => Raise TypeError
  end.

(** [max(l)] keeps the first item and replaces it by each later item that
    compares greater; [min(l)] likewise with [<]. *)
Fixpoint max_from (best : reading) (l : list reading) : outcome reading :=
  match l with
  | [] => Ret best
  | item :: rest =>
      more <- py_gt item best ;;
      max_from (if more : bool then item else best) rest
  end.

Fixpoint min_from (best : reading) (l : list reading) : outcome reading :=
  match l with
  | [] => Ret best
  | item :: rest =>
      less <- py_lt item best ;;
      min_from (if less : bool then item else best) rest
  end.

Definition py_max (l : list reading) : outcome reading :=
  match l with
  | [] => Raise ValueError
  | first :: rest => max_from first rest
  end.

Definition py_min (l : list reading) : outcome reading :=
  match l with
  | [] => Raise ValueError
  | first :: rest => min_from first rest
  end.

(** ** The sampling loop of [detect_motion] (lines 80-107) *)

(** Lines 88-90: append, then drop the oldest once more than five are held. *)
Definition push (last_distances : list reading) (distance : reading) : list reading :=
  let appended := last_distances ++ [distance] in
  if (5 <? List.length appended)%nat then tl appended else appended.

(** The branch of lines 92-105 a tick takes: [Trigger] is the branch of
    lines 96-99, [Idle] the [else] of line 100, [NoEvent] those of lines 102
    and 104. *)
Inductive DetectionEvent : Type :=
| NoEvent
| Idle (distance : reading)
| Trigger (distance : reading).

Definition classify (pir_value : Z) (distance : reading)
    (last_distances : list reading) : outcome DetectionEvent :=
  if pir_value =? 1 then
    above <- py_lt (Num 10) distance ;;
    in_band <- (if above : bool then py_lt distance (Num 100) else ret false) ;;
    if in_band : bool then
      highest <- py_max last_distances ;;
      lowest <- py_min last_distances ;;
      movement_pattern <- py_sub highest lowest ;;
      moved <- py_gt movement_pattern (Num 20) ;;
      ret (if moved : bool then Trigger distance else Idle distance)
    else ret NoEvent
  else ret NoEvent.

Record Locals : Type := mkLocals {
  last_distances : list reading;
  last_detection_time : string
}.

Definition initial_locals : Locals := mkLocals [] "Never".

Definition digit (n : Z) : ascii := ascii_of_nat (48 + Z.to_nat n).

(** [{:02d}] on the hour and minute fields, which stay below 100. *)
Definition fmt02d (n : Z) : string :=
  String (digit (n / 10)) (String (digit (n mod 10)) EmptyString).

(** Line 99: [utime.localtime()] is read twice, for fields 3 and 4. *)
Definition detection_label : M string :=
  t_hour <- utime_time ;;
  t_minute <- utime_time ;;
  ret (fmt02d ((t_hour / 3600) mod 24) ++ ":" ++ fmt02d ((t_minute / 60) mod 60))%string.

Record TickInput : Type := mkTick {
  pir_value : Z;
  distance : reading;
  hold : await_outcome;
  pause : await_outcome
}.

(** Lines 96-99 on a [Trigger], the [display_status] of lines 101, 103 and
    105 otherwise; the value is the label the next tick displays. *)
Definition on_event (i : TickInput) (l : Locals) (event : DetectionEvent) : M string :=
  match event with
  | Trigger d =>
      display_status "angry" (last_detection_time l) ;;
      activate_pump (hold i) ;;
      log_event "Cat Detected" d (pir_value i) ;;
      detection_label
  | Idle _ | NoEvent =>
      display_status "watching" (last_detection_time l) ;;
      ret (last_detection_time l)
  end.

Definition loop_body (i : TickInput) (l : Locals) : M Locals :=
  let window := push (last_distances l) (distance i) in
  event <- eval (classify (pir_value i) (distance i) window) ;;
  label <- on_event i l event ;;
  asyncio_sleep 100 (pause i) ;;
  ret (mkLocals window label).

(** A finite prefix of the [while True] loop, one input per iteration. *)
Fixpoint detect_motion (inputs : list TickInput) (l : Locals) : M Locals :=
  match inputs with
  | [] => ret l
  | i :: rest => l' <- loop_body i l ;; detect_motion rest l'
  end.

Definition sample (pir : Z) (cm : Q) : TickInput := mkTick pir (Num cm) Resumed Resumed.
Definition missing (pir : Z) : TickInput := mkTick pir PyNone Resumed Resumed.

(** ** Observations on a run *)

Definition run {A : Type} (c : M A) (w : World) : World := snd (c w).

(** What a computation appended to the collaborator trace. *)
Definition emitted {A : Type} (c : M A) (w : World) : list io_event :=
  skipn (List.length (events w)) (events (run c w)).

Definition is_relay_on (e : io_event) : bool :=
  match e with RelayOn => true | _ => false end.

Definition is_error_text (e : io_event) : bool :=
  match e with
  | OledText s _ _ => String.eqb s "Too many activations"
  | _ => false
  end.

Definition is_log_write (e : io_event) : bool :=
  match e with FileAppend _ => true | _ => false end.

(** The value of [current_time] in a call started in [w]. *)
Definition now (w : World) : Z := clock w / 1000.

(** [activations_count] as the gate of line 55 reads it, after lines 51-53. *)
Definition count_at_gate (w : World) : Z :=
  if now w / 60 =? last_activation_minute w then activations_count w else 0.

(** The call drove the relay on. *)
Definition actuates (w : World) : bool :=
  existsb is_relay_on (emitted (activate_pump Resumed) w).

(** The call put the error text on the display. *)
Definition shows_error (w : World) : bool :=
  existsb is_error_text (emitted (activate_pump Resumed) w).

(** The clock moves between two calls. *)
Definition at_clock (c : Z) (w : World) : World :=
  mkWorld c (relay w) (events w) (last_activation_time w)
          (activations_count w) (last_activation_minute w).

(** Worlds the controller can be in: booted, then any interleaving of
    completed [activate_pump] calls, passing time and collaborator output. *)
Inductive reachable : World -> Prop :=
| reach_boot (c : Z) : reachable (initial_world c)
| reach_call (w : World) : reachable w -> reachable (run (activate_pump Resumed) w)
| reach_clock (c : Z) (w : World) : reachable w -> reachable (at_clock c w)
| reach_emit (e : io_event) (w : World) :
    e <> RelayOn -> reachable w -> reachable (run (emit e) w).

(** One trigger handled at each of the given clock readings, in order. *)
Fixpoint handle_triggers (clocks : list Z) (w : World) : World :=
  match clocks with
  | [] => w
  | c :: rest => handle_triggers rest (run (activate_pump Resumed) (at_clock c w))
  end.

(** How many of those triggers actuate. *)
Fixpoint actuations (clocks : list Z) (w : World) : Z :=
  match clocks with
  | [] => 0
  | c :: rest =>
      (if actuates (at_clock c w) then 1 else 0)
      + actuations rest (run (activate_pump Resumed) (at_clock c w))
  end.

(** The minute bucket of a clock reading. *)
Definition bucket (c : Z) : Z := c / 1000 / 60.

(** ** Notions the statements use *)

(** The band of line 93. *)
Definition in_band (d : Q) : Prop := (10 < d /\ d < 100)%Q.

(** The numbers held in a window. *)
Definition values (window : list reading) : list Q :=
  flat_map (fun r => match r with Num q => [q] | PyNone => [] end) window.

(** The spread as the specification words it: greatest minus least. *)
Definition spec_spread (window : list Q) : Q :=
  match window with
  | [] => 0
  | first :: rest => fold_left Qmax rest first - fold_left Qmin rest first
  end%Q.

(** What the loop and the display add to the trace. *)
Definition append_events (extra : list io_event) (w : World) : World :=
  mkWorld (clock w) (relay w) (events w ++ extra) (last_activation_time w)
          (activations_count w) (last_activation_minute w).

Definition status_events (status label : string) : list io_event :=
  [OledFill 0]
  ++ (if String.eqb status "watching" then [OledText "^_^" 56 0]
      else if String.eqb status "angry" then [OledText ">_<" 56 0] else [])
  ++ [OledText ("Status: " ++ status) 0 20; OledText ("Last: " ++ label) 0 30; OledShow].


(** Three ticks from second 120 with presence: readings 50, 75 and 50. *)
Definition three_ticks : World :=
  run (detect_motion [sample 1 50; sample 1 75; sample 1 50] initial_locals)
      (initial_world 120000).

(** ** Further notions: the loop seen from outside *)

(** The world once the pause of line 107 has resumed. *)
Definition after_pause (w : World) : World :=
  mkWorld (clock w + 100) (relay w) (events w ++ [Sleep 100])
          (last_activation_time w) (activations_count w) (last_activation_minute w).

(** The label line 99 forms from the clock of [w]. *)
Definition label_at (w : World) : string :=
  (fmt02d ((now w / 3600) mod 24) ++ ":" ++ fmt02d ((now w / 60) mod 60))%string.

(** The world a completed [Trigger] tick leaves before its pause: status
    shown, [activate_pump] returned, record appended. *)
Definition after_trigger (i : TickInput) (l : Locals) (d : reading) (w : World) : World :=
  let pumped :=
    run (activate_pump Resumed)
        (append_events (status_events "angry" (last_detection_time l)) w) in
  append_events [FileAppend (mkLogEntry (now pumped) "Cat Detected" d (pir_value i))]
                pumped.

(** How often an event of a kind occurs on a trace. *)
Definition occurrences (kind : io_event -> bool) (trace : list io_event) : nat :=
  List.length (filter kind trace).

Definition is_relay_off (e : io_event) : bool :=
  match e with RelayOff => true | _ => false end.

(** The values of [current_time] at which the triggers handled at the given
    clock readings actuate, in order. *)
Fixpoint actuation_times (clocks : list Z) (w : World) : list Z :=
  match clocks with
  | [] => []
  | c :: rest =>
      (if actuates (at_clock c w) then [now (at_clock c w)] else [])
      ++ actuation_times rest (run (activate_pump Resumed) (at_clock c w))
  end.

(** Each element exceeds its predecessor, starting from [previous], by more
    than [gap]. *)
Fixpoint spaced (gap previous : Z) (times : list Z) : Prop :=
  match times with
  | [] => True
  | t :: rest => t - previous > gap /\ spaced gap t rest
  end.

(** ** [main] (lines 109-122) *)

(** Lines 17-18. *)
Definition OLED_WIDTH : Z := 128.
Definition OLED_HEIGHT : Z := 64.

(** What [main] does to the console, the display and the scheduler before
    the detection task exists, in order. *)
Inductive boot_op : Type :=
| Print (s : string)
| BootFill (c : Z)
| BootText (s : string) (x y : Z)
| BootFillRect (x y w h c : Z)
| BootShow
| BootSleep (ms : Z).

Record Boot : Type := mkBoot {
  boot_clock : Z;
  boot_trace : list boot_op
}.

(** [int(i * OLED_WIDTH / INITIALIZATION_TIME)] of line 114: the quotient of
    two non-negative integers, truncated. *)
Definition bar_width (i : Z) : Z := i * OLED_WIDTH / INITIALIZATION_TIME.

(** [range(n)]. *)
Definition py_range (n : Z) : list Z := map Z.of_nat (seq 0 (Z.to_nat n)).

(** Lines 113-116, one iteration per element of [steps]; [awaits i] is the
    outcome of the sleep of iteration [i]. *)
Fixpoint init_steps (awaits : Z -> await_outcome) (steps : list Z) (b : Boot)
    : outcome unit * Boot :=
  match steps with
  | [] => (Ret tt, b)
  | i :: rest =>
      let drawn :=
        mkBoot (boot_clock b)
               (boot_trace b ++ [BootFillRect 0 20 (bar_width i) 10 1; BootShow]) in
      match awaits i with
      | Resumed =>
          init_steps awaits rest
            (mkBoot (boot_clock drawn + 1000) (boot_trace drawn ++ [BootSleep 1000]))
      | Cancelled => (Raise CancelledError, drawn)
      end
  end.

(** Lines 110-118: up to the second [print]. *)
Definition main_init (awaits : Z -> await_outcome) (clock0 : Z) : outcome unit * Boot :=
  let started :=
    mkBoot clock0 [Print "Initializing PIR sensor..."; BootFill 0;
                   BootText "Initializing..." 0 0] in
  match init_steps awaits (py_range INITIALIZATION_TIME) started with
  | (Ret _, b) => (Ret tt, mkBoot (boot_clock b) (boot_trace b ++ [Print "Starting detection..."]))
  | (Raise e, b) => (Raise e, b)
  end.

(** Lines 110-119 and the task line 119 creates: the start-up, then a finite
    prefix of [detect_motion] on its own fresh locals, the globals still as
    lines 32-34 set them.  The idle loop of lines 121-122 only sleeps beside
    the task and is left out.  The second component is the outcome of the
    task, not of [main]. *)
Definition main (awaits : Z -> await_outcome) (clock0 : Z) (inputs : list TickInput)
    : Boot * (outcome Locals * World) :=
  match main_init awaits clock0 with
  | (Ret _, b) => (b, detect_motion inputs initial_locals (initial_world (boot_clock b)))
  | (Raise e, b) => (b, (Raise e, initial_world (boot_clock b)))
  end.

Definition is_bar (op : boot_op) : bool :=
  match op with BootFillRect _ _ _ _ _ => true | _ => false end.

Definition is_boot_sleep (op : boot_op) : bool :=
  match op with BootSleep _ => true | _ => false end.

(** Detection has started at least [INITIALIZATION_TIME] seconds into a
    non-negative clock and nothing has triggered yet, or the pump has run
    and a record has been written. *)
Definition started_clean (w : World) : Prop :=
  (last_activation_time w = 0 /\ activations_count w = 0 /\
   1000 * INITIALIZATION_TIME <= clock w /\
   (forall e, In e (events w) -> is_relay_on e = false /\ is_log_write e = false))
  \/ (In RelayOn (events w) /\ exists entry, In (FileAppend entry) (events w)).

(** * Sample runs *)

Example activate_pump_first :
  activate_pump Resumed (initial_world 120000) =
  (Ret tt, mkWorld 122000 false [RelayOn; Sleep 2000; RelayOff] 120 1 2).
Proof. reflexivity. Qed.

(** * Properties of [activate_pump] *)

Lemma skipn_own_length {A : Type} (l extra : list A) :
  skipn (List.length l) (l ++ extra) = extra.
Proof.
  induction l as [| x l IH]; simpl; auto.
Qed.

(** The three ways a completed call leaves the world. *)
Lemma activate_pump_cases (w : World) :
  activate_pump Resumed w =
  (Ret tt,
   if (COOLDOWN_PERIOD <? now w - last_activation_time w)
      && (count_at_gate w <? MAX_ACTIVATIONS_PER_MINUTE)
   then mkWorld (clock w + 1000 * PUMP_ACTIVATION_TIME) false
                (events w ++ [RelayOn; Sleep (1000 * PUMP_ACTIVATION_TIME); RelayOff])
                (now w) (count_at_gate w + 1) (now w / 60)
   else if MAX_ACTIVATIONS_PER_MINUTE <=? count_at_gate w
   then mkWorld (clock w) (relay w)
                (events w ++ [OledFill 0; OledText "ERROR:" 0 0;
                              OledText "Too many activations" 0 10; OledShow])
                (last_activation_time w) (count_at_gate w) (now w / 60)
   else mkWorld (clock w) (relay w) (events w)
                (last_activation_time w) (count_at_gate w) (now w / 60)).
Proof.
  destruct w as [c r ev lat cnt lam].
  unfold activate_pump, rollover, display_error, emit, count_at_gate, now; simpl.
  destruct (Z.eqb_spec (c / 1000 / 60) lam) as [Heq | Hne]; simpl.
  - subst lam.
    destruct ((COOLDOWN_PERIOD <? c / 1000 - lat) && (cnt <? MAX_ACTIVATIONS_PER_MINUTE));
      simpl; [| destruct (MAX_ACTIVATIONS_PER_MINUTE <=? cnt); simpl ];
      rewrite <- ?app_assoc; reflexivity.
  - destruct ((COOLDOWN_PERIOD <? c / 1000 - lat) && (0 <? MAX_ACTIVATIONS_PER_MINUTE));
      simpl; [| destruct (MAX_ACTIVATIONS_PER_MINUTE <=? 0); simpl ];
      rewrite <- ?app_assoc; reflexivity.
Qed.

Lemma now_after_hold (c : Z) :
  (c + 1000 * PUMP_ACTIVATION_TIME) / 1000 = c / 1000 + PUMP_ACTIVATION_TIME.
Proof.
  rewrite Z.mul_comm, Z.div_add by lia. reflexivity.
Qed.

Lemma gate_true_iff (w : World) :
  (COOLDOWN_PERIOD <? now w - last_activation_time w)
  && (count_at_gate w <? MAX_ACTIVATIONS_PER_MINUTE) = true <->
  now w - last_activation_time w > COOLDOWN_PERIOD /\
  count_at_gate w < MAX_ACTIVATIONS_PER_MINUTE.
Proof.
  rewrite andb_true_iff, !Z.ltb_lt. lia.
Qed.

Lemma actuates_iff_gate (w : World) :
  actuates w = true <->
  (COOLDOWN_PERIOD <? now w - last_activation_time w)
  && (count_at_gate w <? MAX_ACTIVATIONS_PER_MINUTE) = true.
Proof.
  unfold actuates, emitted, run. rewrite activate_pump_cases. simpl.
  destruct ((COOLDOWN_PERIOD <? now w - last_activation_time w)
            && (count_at_gate w <? MAX_ACTIVATIONS_PER_MINUTE)); simpl.
  - rewrite skipn_own_length. simpl. tauto.
  - destruct (MAX_ACTIVATIONS_PER_MINUTE <=? count_at_gate w); simpl.
    + rewrite skipn_own_length. simpl. tauto.
    + rewrite skipn_all. simpl. tauto.
Qed.

(** C1. A trigger handled at [now w] actuates exactly when, after the minute
    rollover, more than [COOLDOWN_PERIOD] seconds have passed since
    [last_activation_time] and fewer than [MAX_ACTIVATIONS_PER_MINUTE]
    activations are counted; it then records the time read before the
    pump-on hold (the clock has since moved on by the hold) and counts
    exactly one more activation. *)
Theorem activate_pump_gate (w : World) :
  let w' := run (activate_pump Resumed) w in
  (actuates w = true <->
     now w - last_activation_time w > COOLDOWN_PERIOD /\
     count_at_gate w < MAX_ACTIVATIONS_PER_MINUTE) /\
  (actuates w = true ->
     last_activation_time w' = now w /\
     now w' = now w + PUMP_ACTIVATION_TIME /\
     activations_count w' = count_at_gate w + 1) /\
  (actuates w = false ->
     last_activation_time w' = last_activation_time w /\
     activations_count w' = count_at_gate w).
Proof.
  cbv zeta. rewrite <- gate_true_iff, actuates_iff_gate.
  split; [tauto |].
  assert (Hfalse : actuates w = false <->
            (COOLDOWN_PERIOD <? now w - last_activation_time w)
            && (count_at_gate w <? MAX_ACTIVATIONS_PER_MINUTE) = false).
  { rewrite <- !not_true_iff_false, actuates_iff_gate. tauto. }
  rewrite Hfalse. unfold run. rewrite activate_pump_cases.
  split; intros Hg; cbn [snd]; rewrite Hg; unfold now at 2; cbn [last_activation_time activations_count clock].
  - repeat split. apply now_after_hold.
  - destruct (MAX_ACTIVATIONS_PER_MINUTE <=? count_at_gate w); simpl; auto.
Qed.

(** ** The per-minute cap *)

Lemma run_activate_pump (w : World) :
  run (activate_pump Resumed) w =
  if actuates w
  then mkWorld (clock w + 1000 * PUMP_ACTIVATION_TIME) false
               (events w ++ [RelayOn; Sleep (1000 * PUMP_ACTIVATION_TIME); RelayOff])
               (now w) (count_at_gate w + 1) (now w / 60)
  else if MAX_ACTIVATIONS_PER_MINUTE <=? count_at_gate w
  then mkWorld (clock w) (relay w)
               (events w ++ [OledFill 0; OledText "ERROR:" 0 0;
                             OledText "Too many activations" 0 10; OledShow])
               (last_activation_time w) (count_at_gate w) (now w / 60)
  else mkWorld (clock w) (relay w) (events w)
               (last_activation_time w) (count_at_gate w) (now w / 60).
Proof.
  pose proof (actuates_iff_gate w) as Hact.
  unfold run at 1. rewrite activate_pump_cases. cbn [snd].
  destruct ((COOLDOWN_PERIOD <? now w - last_activation_time w)
            && (count_at_gate w <? MAX_ACTIVATIONS_PER_MINUTE));
    destruct (actuates w); try reflexivity.
  - destruct Hact as [_ Hact]. discriminate (Hact eq_refl).
  - destruct Hact as [Hact _]. discriminate (Hact eq_refl).
Qed.

Lemma actuates_under_cap (w : World) :
  actuates w = true -> count_at_gate w < MAX_ACTIVATIONS_PER_MINUTE.
Proof.
  rewrite actuates_iff_gate, gate_true_iff. tauto.
Qed.

Lemma refused (w : World) :
  now w - last_activation_time w <= COOLDOWN_PERIOD \/
  MAX_ACTIVATIONS_PER_MINUTE <= count_at_gate w ->
  actuates w = false.
Proof.
  intros Hwhy. destruct (actuates w) eqn:Hact; [| reflexivity].
  apply actuates_iff_gate, gate_true_iff in Hact. lia.
Qed.

Lemma count_at_gate_range (w : World) :
  0 <= activations_count w <= MAX_ACTIVATIONS_PER_MINUTE ->
  0 <= count_at_gate w <= MAX_ACTIVATIONS_PER_MINUTE.
Proof.
  unfold count_at_gate, MAX_ACTIVATIONS_PER_MINUTE.
  destruct (now w / 60 =? last_activation_minute w); lia.
Qed.

Lemma reachable_count_range (w : World) :
  reachable w -> 0 <= activations_count w <= MAX_ACTIVATIONS_PER_MINUTE.
Proof.
  induction 1 as [c | w Hw IH | c w Hw IH | e w He Hw IH]; simpl.
  - unfold MAX_ACTIVATIONS_PER_MINUTE. lia.
  - apply count_at_gate_range in IH.
    rewrite run_activate_pump.
    destruct (actuates w) eqn:Hact; simpl.
    + apply actuates_under_cap in Hact. lia.
    + destruct (MAX_ACTIVATIONS_PER_MINUTE <=? count_at_gate w); simpl; lia.
  - exact IH.
  - exact IH.
Qed.

(** While the bucket stays [m], the activations still allowed are those
    left under the cap. *)
Lemma actuations_in_bucket (m : Z) (clocks : list Z) :
  Forall (fun c => bucket c = m) clocks ->
  forall w : World,
    0 <= activations_count w <= MAX_ACTIVATIONS_PER_MINUTE ->
    0 <= actuations clocks w <=
      MAX_ACTIVATIONS_PER_MINUTE
      - (if m =? last_activation_minute w then activations_count w else 0).
Proof.
  induction 1 as [| c rest Hc Hrest IH]; intros w Hrange; cbn [actuations].
  - destruct (m =? last_activation_minute w); lia.
  - set (v := at_clock c w).
    assert (Hgate : count_at_gate v =
              if m =? last_activation_minute w then activations_count w else 0).
    { unfold count_at_gate, now, v; simpl. unfold bucket in Hc. rewrite Hc. reflexivity. }
    assert (Hv : 0 <= count_at_gate v <= MAX_ACTIVATIONS_PER_MINUTE).
    { apply count_at_gate_range. exact Hrange. }
    assert (Hm : now v / 60 = m) by exact Hc.
    specialize (IH (run (activate_pump Resumed) v)).
    rewrite run_activate_pump in IH |- *.
    rewrite <- Hgate.
    destruct (actuates v) eqn:Hact.
    + apply actuates_under_cap in Hact.
      cbn [activations_count last_activation_minute] in IH.
      rewrite Hm, Z.eqb_refl in IH. rewrite Hm. lia.
    + destruct (MAX_ACTIVATIONS_PER_MINUTE <=? count_at_gate v);
        cbn [activations_count last_activation_minute] in IH;
        rewrite Hm, Z.eqb_refl in IH; rewrite Hm; lia.
Qed.

Lemma shows_error_iff (w : World) :
  shows_error w = true <-> MAX_ACTIVATIONS_PER_MINUTE <= count_at_gate w.
Proof.
  unfold shows_error, emitted. rewrite run_activate_pump.
  destruct (actuates w) eqn:Hact; simpl.
  - apply actuates_under_cap in Hact.
    rewrite skipn_own_length. simpl. split; [discriminate | lia].
  - destruct (Z.leb_spec MAX_ACTIVATIONS_PER_MINUTE (count_at_gate w)); simpl.
    + rewrite skipn_own_length. simpl. tauto.
    + rewrite skipn_all. simpl. split; [discriminate | lia].
Qed.

(** C2. In every reachable world [activations_count] lies between 0 and
    [MAX_ACTIVATIONS_PER_MINUTE]; of any sequence of triggers whose clock
    readings share one minute bucket at most [MAX_ACTIVATIONS_PER_MINUTE]
    actuate; and a trigger met with the count at the cap in its bucket does
    not actuate and shows the error, whatever the time since the last
    activation. *)
Theorem count_never_exceeds_cap :
  (forall w : World,
      reachable w -> 0 <= activations_count w <= MAX_ACTIVATIONS_PER_MINUTE) /\
  (forall (w : World) (m : Z) (clocks : list Z),
      reachable w -> Forall (fun c => bucket c = m) clocks ->
      actuations clocks w <= MAX_ACTIVATIONS_PER_MINUTE) /\
  (forall w : World,
      MAX_ACTIVATIONS_PER_MINUTE <= activations_count w ->
      now w / 60 = last_activation_minute w ->
      actuates w = false /\ shows_error w = true /\
      activations_count (run (activate_pump Resumed) w) = activations_count w).
Proof.
  split; [exact reachable_count_range | split].
  - intros w m clocks Hw Hclocks.
    pose proof (actuations_in_bucket m clocks Hclocks w (reachable_count_range w Hw)) as H.
    pose proof (reachable_count_range w Hw).
    destruct (m =? last_activation_minute w); lia.
  - intros w Hcap Hsame.
    assert (Hgate : count_at_gate w = activations_count w).
    { unfold count_at_gate. rewrite Hsame, Z.eqb_refl. reflexivity. }
    assert (Hno : actuates w = false) by (apply refused; lia).
    split; [exact Hno | split].
    + apply shows_error_iff. lia.
    + rewrite run_activate_pump, Hno.
      destruct (MAX_ACTIVATIONS_PER_MINUTE <=? count_at_gate w); simpl; exact Hgate.
Qed.

Example ten_then_capped :
  let clocks := [60000; 66000; 72000; 78000; 84000; 90000; 96000; 102000; 108000; 114000] in
  let w := at_clock 119000 (handle_triggers clocks (initial_world 0)) in
  actuations clocks (initial_world 0) = 10 /\
  activations_count w = 10 /\ actuates w = false /\ shows_error w = true.
Proof. vm_compute. repeat split. Qed.

(** ** The minute rollover *)




(** ** The relay *)

Lemma reachable_relay_off (w : World) : reachable w -> relay w = false.
Proof.
  induction 1 as [c | w Hw IH | c w Hw IH | e w He Hw IH]; simpl; auto.
  rewrite run_activate_pump.
  destruct (actuates w); [| destruct (MAX_ACTIVATIONS_PER_MINUTE <=? count_at_gate w)];
    simpl; auto.
Qed.

(** C4 (as the code has it). While the pump-on hold runs to completion, the
    relay is off in every reachable world, so off when an activation
    starts; the call returns normally with the relay off, and an activation
    is the relay driven on, one sleep of [PUMP_ACTIVATION_TIME] seconds and
    the relay driven off, the clock having advanced by just that sleep. *)
Theorem relay_off_when_hold_completes (w : World) :
  reachable w ->
  let w' := run (activate_pump Resumed) w in
  relay w = false /\
  fst (activate_pump Resumed w) = Ret tt /\
  relay w' = false /\
  (actuates w = true ->
   emitted (activate_pump Resumed) w =
     [RelayOn; Sleep (1000 * PUMP_ACTIVATION_TIME); RelayOff] /\
   clock w' = clock w + 1000 * PUMP_ACTIVATION_TIME) /\
  (actuates w = false ->
   filter is_relay_on (emitted (activate_pump Resumed) w) = [] /\
   clock w' = clock w).
Proof.
  intros Hw w'.
  split; [exact (reachable_relay_off w Hw) |].
  split; [rewrite activate_pump_cases; reflexivity |].
  split; [exact (reachable_relay_off w' (reach_call w Hw)) |].
  unfold emitted, w'. rewrite run_activate_pump.
  split; intros Hact; rewrite Hact.
  - cbn [events clock]. rewrite skipn_own_length. split; reflexivity.
  - destruct (MAX_ACTIVATIONS_PER_MINUTE <=? count_at_gate w); cbn [events clock].
    + rewrite skipn_own_length. split; reflexivity.
    + rewrite skipn_all. split; reflexivity.
Qed.

Lemma relay_off_when_hold_completes_witness :
  reachable (initial_world 120000) /\
  relay (run (activate_pump Resumed) (initial_world 120000)) = false /\
  actuates (initial_world 120000) = true.
Proof.
  pose proof (reach_boot 120000) as Hboot.
  destruct (relay_off_when_hold_completes (initial_world 120000) Hboot)
    as (_ & _ & Hoff & _).
  split; [exact Hboot | split; [exact Hoff | reflexivity]].
Defined.

(** C4 as stated fails: cancelled during the hold, [activate_pump] is left by
    the exception with the relay still on ([relay.off()] is never reached). *)
Lemma cancelled_hold_leaves_relay_on :
  relay (initial_world 120000) = false /\
  activate_pump Cancelled (initial_world 120000) =
    (Raise CancelledError, mkWorld 120000 true [RelayOn] 0 0 2) /\
  relay (run (activate_pump Cancelled) (initial_world 120000)) = true.
Proof. repeat split. Qed.

(** ** What a suppressed trigger shows *)

(** C5. The error text is displayed exactly when the count read by the gate
    has reached [MAX_ACTIVATIONS_PER_MINUTE], and then the call does nothing
    else; a trigger refused with the count under the cap (refused by the
    cooldown alone) leaves no trace on any collaborator. *)
Theorem suppression_display (w : World) :
  (shows_error w = true <-> MAX_ACTIVATIONS_PER_MINUTE <= count_at_gate w) /\
  (MAX_ACTIVATIONS_PER_MINUTE <= count_at_gate w ->
   actuates w = false /\
   emitted (activate_pump Resumed) w =
     [OledFill 0; OledText "ERROR:" 0 0;
      OledText "Too many activations" 0 10; OledShow]) /\
  (count_at_gate w < MAX_ACTIVATIONS_PER_MINUTE ->
   now w - last_activation_time w <= COOLDOWN_PERIOD ->
   actuates w = false /\ shows_error w = false /\
   emitted (activate_pump Resumed) w = []).
Proof.
  split; [exact (shows_error_iff w) |].
  split.
  - intros Hcap.
    assert (Hno : actuates w = false) by (apply refused; lia).
    split; [exact Hno |].
    unfold emitted. rewrite run_activate_pump, Hno.
    destruct (Z.leb_spec MAX_ACTIVATIONS_PER_MINUTE (count_at_gate w)); [| lia].
    cbn [events]. apply skipn_own_length.
  - intros Hunder Hcool.
    assert (Hno : actuates w = false) by (apply refused; lia).
    split; [exact Hno |].
    split.
    + destruct (shows_error w) eqn:Herr; [| reflexivity].
      apply shows_error_iff in Herr. lia.
    + unfold emitted. rewrite run_activate_pump, Hno.
      destruct (Z.leb_spec MAX_ACTIVATIONS_PER_MINUTE (count_at_gate w)); [lia |].
      cbn [events]. apply skipn_all.
Qed.

(** ** The first trigger *)

(** C10. A freshly booted world holds 0 as [last_activation_time]; a first
    trigger whose clock reads at most [COOLDOWN_PERIOD] seconds is refused
    by the cooldown clause, silently, and leaves the globals as at boot. *)
Theorem first_trigger_in_cooldown (boot_clock : Z) :
  now (initial_world boot_clock) <= COOLDOWN_PERIOD ->
  let w := initial_world boot_clock in
  let w' := run (activate_pump Resumed) w in
  last_activation_time w = 0 /\
  now w - last_activation_time w <= COOLDOWN_PERIOD /\
  actuates w = false /\
  emitted (activate_pump Resumed) w = [] /\
  last_activation_time w' = 0 /\ activations_count w' = 0.
Proof.
  intros Hearly w w'.
  assert (Hcool : now w - last_activation_time w <= COOLDOWN_PERIOD).
  { unfold w in *. cbn [last_activation_time initial_world]. lia. }
  assert (Hno : actuates w = false) by (apply refused; lia).
  assert (Hgate : count_at_gate w = 0).
  { unfold count_at_gate, w. cbn [activations_count initial_world].
    destruct (_ =? _); reflexivity. }
  split; [reflexivity | split; [exact Hcool | split; [exact Hno |]]].
  unfold emitted, w'. rewrite run_activate_pump, Hno, Hgate.
  change (MAX_ACTIVATIONS_PER_MINUTE <=? 0) with false.
  cbn [events last_activation_time activations_count].
  split; [apply skipn_all | split; reflexivity].
Qed.

Lemma first_trigger_in_cooldown_witness :
  now (initial_world 3000) <= COOLDOWN_PERIOD /\
  actuates (initial_world 3000) = false.
Proof.
  assert (Hearly : now (initial_world 3000) <= COOLDOWN_PERIOD)
    by (vm_compute; discriminate).
  destruct (first_trigger_in_cooldown 3000 Hearly) as (_ & _ & Hno & _).
  exact (conj Hearly Hno).
Defined.

(** * Properties of the classifier *)

Lemma Qltb_lt (x y : Q) : Qltb x y = true <-> (x < y)%Q.
Proof.
  unfold Qltb. rewrite negb_true_iff, <- not_true_iff_false, Qle_bool_iff.
  split; [apply Qnot_le_lt | apply Qlt_not_le].
Qed.

Lemma Qltb_ge (x y : Q) : Qltb x y = false <-> (y <= x)%Q.
Proof.
  unfold Qltb. rewrite negb_false_iff. apply Qle_bool_iff.
Qed.

Lemma Qmax_pick (best item : Q) :
  Qmax best item = if Qltb best item then item else best.
Proof.
  unfold Qmax, GenericMinMax.gmax.
  destruct (Qltb best item) eqn:Hlt.
  - apply Qltb_lt in Hlt. rewrite Qlt_alt in Hlt. rewrite Hlt. reflexivity.
  - apply Qltb_ge in Hlt. rewrite Qle_alt in Hlt.
    destruct (Qcompare_spec best item) as [Heq | Hlt' | Hgt]; try reflexivity.
    exfalso. apply Hlt. apply Qgt_alt. exact Hlt'.
Qed.

Lemma Qmin_pick (best item : Q) :
  Qmin best item = if Qltb item best then item else best.
Proof.
  unfold Qmin, GenericMinMax.gmin.
  destruct (Qltb item best) eqn:Hlt.
  - apply Qltb_lt in Hlt. apply Qgt_alt in Hlt. rewrite Hlt. reflexivity.
  - apply Qltb_ge in Hlt. rewrite Qle_alt in Hlt.
    destruct (best ?= item)%Q; try reflexivity. exfalso. apply Hlt. reflexivity.
Qed.

Lemma fold_max_above (rest : list Q) (first : Q) :
  (first <= fold_left Qmax rest first)%Q.
Proof.
  revert first. induction rest as [| a rest IH]; intros first; simpl.
  - apply Qle_refl.
  - apply Qle_trans with (Qmax first a); [apply Q.le_max_l | apply IH].
Qed.

Lemma fold_min_below (rest : list Q) (first : Q) :
  (fold_left Qmin rest first <= first)%Q.
Proof.
  revert first. induction rest as [| a rest IH]; intros first; simpl.
  - apply Qle_refl.
  - apply Qle_trans with (Qmin first a); [apply IH | apply Q.le_min_l].
Qed.

(** [fold_left Qmax] is the greatest element of the window and
    [fold_left Qmin] the least, so [spec_spread] is the widest gap. *)
Lemma fold_max_greatest (rest : list Q) (first x : Q) :
  In x (first :: rest) -> (x <= fold_left Qmax rest first)%Q.
Proof.
  revert first. induction rest as [| a rest IH]; intros first [<- | Hin]; simpl.
  - apply Qle_refl.
  - destruct Hin.
  - apply Qle_trans with (Qmax first a); [apply Q.le_max_l | apply fold_max_above].
  - destruct Hin as [<- | Hin].
    + apply Qle_trans with (Qmax first a); [apply Q.le_max_r | apply fold_max_above].
    + apply IH. right. exact Hin.
Qed.

Lemma fold_min_least (rest : list Q) (first x : Q) :
  In x (first :: rest) -> (fold_left Qmin rest first <= x)%Q.
Proof.
  revert first. induction rest as [| a rest IH]; intros first [<- | Hin]; simpl.
  - apply Qle_refl.
  - destruct Hin.
  - apply Qle_trans with (Qmin first a); [apply fold_min_below | apply Q.le_min_l].
  - destruct Hin as [<- | Hin].
    + apply Qle_trans with (Qmin first a); [apply fold_min_below | apply Q.le_min_r].
    + apply IH. right. exact Hin.
Qed.

Lemma fold_max_member (rest : list Q) (first : Q) :
  In (fold_left Qmax rest first) (first :: rest).
Proof.
  revert first. induction rest as [| a rest IH]; intros first; simpl.
  - left. reflexivity.
  - specialize (IH (Qmax first a)). rewrite Qmax_pick in IH |- *.
    destruct (Qltb first a); destruct IH as [<- | Hin]; auto.
Qed.

Lemma fold_min_member (rest : list Q) (first : Q) :
  In (fold_left Qmin rest first) (first :: rest).
Proof.
  revert first. induction rest as [| a rest IH]; intros first; simpl.
  - left. reflexivity.
  - specialize (IH (Qmin first a)). rewrite Qmin_pick in IH |- *.
    destruct (Qltb a first); destruct IH as [<- | Hin]; auto.
Qed.

Lemma spec_spread_widest (window : list Q) (x y : Q) :
  In x window -> In y window -> (x - y <= spec_spread window)%Q.
Proof.
  destruct window as [| first rest]; [intros [] |].
  intros Hx Hy. unfold spec_spread.
  pose proof (fold_max_greatest rest first x Hx).
  pose proof (fold_min_least rest first y Hy).
  lra.
Qed.

Lemma max_from_numbers (rest : list Q) (best : Q) :
  max_from (Num best) (map Num rest) = Ret (Num (fold_left Qmax rest best)).
Proof.
  revert best. induction rest as [| item rest IH]; intros best; simpl.
  - reflexivity.
  - rewrite Qmax_pick. destruct (Qltb best item); apply IH.
Qed.

Lemma min_from_numbers (rest : list Q) (best : Q) :
  min_from (Num best) (map Num rest) = Ret (Num (fold_left Qmin rest best)).
Proof.
  revert best. induction rest as [| item rest IH]; intros best; simpl.
  - reflexivity.
  - rewrite Qmin_pick. destruct (Qltb item best); apply IH.
Qed.

Lemma values_numbers (qs : list Q) : values (map Num qs) = qs.
Proof.
  induction qs as [| q qs IH]; simpl; [| rewrite IH]; reflexivity.
Qed.



(** The classifier on a window of numbers, branch by branch. *)
Lemma classify_numbers (pir : Z) (d first : Q) (rest : list Q) :
  classify pir (Num d) (map Num (first :: rest)) =
  Ret (if (pir =? 1) && (Qltb 10 d && Qltb d 100)
       then if Qltb 20 (round (spec_spread (first :: rest)))
            then Trigger (Num d) else Idle (Num d)
       else NoEvent).
Proof.
  unfold classify.
  destruct (pir =? 1); [| reflexivity].
  cbn [andb py_lt bind ret Monad_outcome].
  destruct (Qltb 10 d); [| reflexivity].
  destruct (Qltb d 100); [| reflexivity].
  cbn [andb py_max py_min map].
  rewrite max_from_numbers, min_from_numbers. reflexivity.
Qed.

(** * Properties of the sampling loop *)


Lemma display_status_run (status label : string) (w : World) :
  display_status status label w = (Ret tt, append_events (status_events status label) w).
Proof.
  unfold display_status, status_events, append_events, emit; simpl.
  destruct (String.eqb status "watching"); [| destruct (String.eqb status "angry")];
    simpl; rewrite <- ?app_assoc; reflexivity.
Qed.


Lemma activate_pump_returns (w : World) :
  activate_pump Resumed w = (Ret tt, run (activate_pump Resumed) w).
Proof.
  unfold run. rewrite activate_pump_cases. reflexivity.
Qed.


Lemma on_event_quiet (i : TickInput) (l : Locals) (event : DetectionEvent) (w : World) :
  (forall d, event <> Trigger d) ->
  on_event i l event w =
  (Ret (last_detection_time l),
   append_events (status_events "watching" (last_detection_time l)) w).
Proof.
  intros Hquiet.
  destruct event as [| d | d]; [| | exfalso; exact (Hquiet d eq_refl)];
    unfold on_event; cbn [bind ret Monad_M]; rewrite display_status_run; reflexivity.
Qed.




Lemma status_events_quiet (status label : string) :
  filter is_log_write (status_events status label) = [] /\
  filter is_relay_on (status_events status label) = [].
Proof.
  unfold status_events.
  destruct (String.eqb status "watching"); [| destruct (String.eqb status "angry")];
    split; reflexivity.
Qed.


(** ** Readings that are faulty *)

Lemma push_holds_reading (window : list reading) (r : reading) :
  In r (push window r).
Proof.
  unfold push.
  destruct (5 <? List.length (window ++ [r]))%nat eqn:Hlen.
  - apply Nat.ltb_lt in Hlen. rewrite length_app in Hlen; simpl in Hlen.
    destruct window as [| a rest]; simpl in *; [lia |].
    apply in_or_app. right. left. reflexivity.
  - apply in_or_app. right. left. reflexivity.
Qed.

Lemma push_length (window : list reading) (r : reading) :
  (List.length window <= 5 -> List.length (push window r) <= 5)%nat.
Proof.
  unfold push. intros Hlen.
  destruct (5 <? List.length (window ++ [r]))%nat eqn:Hfull.
  - destruct window as [| a rest]; simpl in *; [lia |].
    rewrite length_app; simpl. lia.
  - apply Nat.ltb_ge in Hfull. exact Hfull.
Qed.




(** ** The loop stays within the reachable worlds *)

(** A hold that is cancelled: the gate decides as before, and a call that
    passes it is left with the relay on and the globals not yet updated. *)
Lemma activate_pump_cancelled (w : World) :
  activate_pump Cancelled w =
  if actuates w
  then (Raise CancelledError,
        mkWorld (clock w) true (events w ++ [RelayOn]) (last_activation_time w)
                (count_at_gate w) (now w / 60))
  else activate_pump Resumed w.
Proof.
  pose proof (actuates_iff_gate w) as Hact.
  rewrite activate_pump_cases.
  destruct w as [c r ev lat cnt lam].
  unfold activate_pump, rollover, display_error, emit, count_at_gate, now in *;
    cbn [clock last_activation_time activations_count last_activation_minute] in *.
  simpl.
  destruct (Z.eqb_spec (c / 1000 / 60) lam) as [Heq | Hne]; simpl.
  - subst lam.
    destruct ((COOLDOWN_PERIOD <? c / 1000 - lat) && (cnt <? MAX_ACTIVATIONS_PER_MINUTE));
      destruct (actuates _);
      try (destruct Hact as [Hact _]; discriminate (Hact eq_refl));
      try (destruct Hact as [_ Hact]; discriminate (Hact eq_refl)).
    + reflexivity.
    + simpl. destruct (MAX_ACTIVATIONS_PER_MINUTE <=? cnt); simpl;
        rewrite <- ?app_assoc; reflexivity.
  - destruct ((COOLDOWN_PERIOD <? c / 1000 - lat) && (0 <? MAX_ACTIVATIONS_PER_MINUTE));
      destruct (actuates _);
      try (destruct Hact as [Hact _]; discriminate (Hact eq_refl));
      try (destruct Hact as [_ Hact]; discriminate (Hact eq_refl)).
    + reflexivity.
    + simpl. destruct (MAX_ACTIVATIONS_PER_MINUTE <=? 0); simpl;
        rewrite <- ?app_assoc; reflexivity.
Qed.

Lemma activate_pump_completed (h : await_outcome) (w w' : World) :
  activate_pump h w = (Ret tt, w') -> w' = run (activate_pump Resumed) w.
Proof.
  destruct h.
  - intros H. unfold run. rewrite H. reflexivity.
  - rewrite activate_pump_cancelled.
    destruct (actuates w); [discriminate |].
    intros H. unfold run. rewrite H. reflexivity.
Qed.

Lemma reachable_append (extra : list io_event) :
  Forall (fun e => e <> RelayOn) extra ->
  forall w : World, reachable w -> reachable (append_events extra w).
Proof.
  induction 1 as [| e extra He Hextra IH]; intros w Hw.
  - unfold append_events. rewrite app_nil_r. destruct w; exact Hw.
  - replace (append_events (e :: extra) w) with (append_events extra (run (emit e) w)).
    + apply IH. apply reach_emit; assumption.
    + unfold append_events, run, emit; simpl. rewrite <- app_assoc. reflexivity.
Qed.

Lemma status_events_no_relay (status label : string) :
  Forall (fun e => e <> RelayOn) (status_events status label).
Proof.
  unfold status_events.
  destruct (String.eqb status "watching"); [| destruct (String.eqb status "angry")];
    simpl; repeat constructor; discriminate.
Qed.

Lemma on_event_reachable (i : TickInput) (l : Locals) (event : DetectionEvent)
    (w w1 : World) (label : string) :
  reachable w -> on_event i l event w = (Ret label, w1) -> reachable w1.
Proof.
  intros Hw.
  assert (Hshown : forall status,
             reachable (append_events (status_events status (last_detection_time l)) w))
    by (intros; apply reachable_append; [apply status_events_no_relay | exact Hw]).
  destruct event as [| d | d].
  - rewrite on_event_quiet by discriminate. intros [= _ <-]. apply Hshown.
  - rewrite on_event_quiet by discriminate. intros [= _ <-]. apply Hshown.
  - unfold on_event; cbn [bind ret Monad_M]. rewrite display_status_run.
    set (shown := append_events _ w) in *.
    destruct (activate_pump (hold i) shown) as [[[] | e] pumped] eqn:Hpump; [| discriminate].
    apply activate_pump_completed in Hpump. subst pumped.
    unfold log_event, utime_time, detection_label; cbn [bind ret Monad_M].
    destruct d as [q |]; [| discriminate].
    intros [= _ <-].
    refine (reach_emit (FileAppend _) (run (activate_pump Resumed) shown) _ _);
      [discriminate | apply reach_call, Hshown].
Qed.

(** A tick that completes leads from a reachable world to a reachable one. *)
Lemma loop_body_reachable (i : TickInput) (l l' : Locals) (w w' : World) :
  reachable w -> loop_body i l w = (Ret l', w') -> reachable w'.
Proof.
  intros Hw.
  unfold loop_body, eval; cbn [bind ret Monad_M].
  destruct (classify _ _ _) as [event |]; [| discriminate].
  destruct (on_event i l event w) as [[label | e] w1] eqn:Hevent; [| discriminate].
  apply on_event_reachable in Hevent; [| exact Hw].
  unfold asyncio_sleep. destruct (pause i); [| discriminate].
  intros [= _ <-].
  apply (reach_clock (clock w1 + 100) (run (emit (Sleep 100)) w1)).
  apply reach_emit; [discriminate | exact Hevent].
Qed.

Lemma detect_motion_reachable (inputs : list TickInput) :
  forall (l l' : Locals) (w w' : World),
    reachable w -> detect_motion inputs l w = (Ret l', w') -> reachable w'.
Proof.
  induction inputs as [| i rest IH]; intros l l' w w' Hw; cbn [detect_motion bind ret Monad_M].
  - intros [= _ <-]. exact Hw.
  - destruct (loop_body i l w) as [[l1 | e] w1] eqn:Hbody; [| discriminate].
    apply loop_body_reachable in Hbody; [| exact Hw].
    apply IH. exact Hbody.
Qed.

(** * Further properties *)

(** ** The window of recent readings (lines 88-90) *)

Lemma push_skipn (window : list reading) (r : reading) :
  (List.length window <= 5)%nat ->
  push window r = skipn (List.length (window ++ [r]) - 5) (window ++ [r]).
Proof.
  intros Hlen. unfold push.
  destruct (5 <? List.length (window ++ [r]))%nat eqn:Hfull.
  - apply Nat.ltb_lt in Hfull. rewrite length_app in *; simpl in *.
    replace (List.length window + 1 - 5)%nat with 1%nat by lia.
    destruct window; reflexivity.
  - apply Nat.ltb_ge in Hfull.
    replace (List.length (window ++ [r]) - 5)%nat with 0%nat by lia.
    reflexivity.
Qed.

Lemma skipn_skipn_app {A : Type} (k n : nat) (l rest : list A) :
  (k <= List.length l)%nat ->
  skipn n (skipn k l ++ rest) = skipn (k + n) (l ++ rest).
Proof.
  revert l. induction k as [| k IH]; intros l Hk; simpl.
  - reflexivity.
  - destruct l as [| a l]; simpl in *; [lia |]. apply IH. lia.
Qed.

(** X1. Whatever is read, the window holds the five latest readings (or all
    of them while fewer), oldest first. *)
Theorem window_is_last_five (readings window : list reading) :
  (List.length window <= 5)%nat ->
  fold_left push readings window =
    skipn (List.length (window ++ readings) - 5) (window ++ readings) /\
  (List.length (fold_left push readings window) <= 5)%nat.
Proof.
  revert window. induction readings as [| r readings IH]; intros window Hlen.
  - simpl. rewrite app_nil_r.
    replace (List.length window - 5)%nat with 0%nat by lia.
    split; [reflexivity | exact Hlen].
  - cbn [fold_left].
    destruct (IH (push window r) (push_length window r Hlen)) as [Heq Hfive].
    split; [| exact Hfive].
    rewrite Heq, (push_skipn window r Hlen).
    set (k := (List.length (window ++ [r]) - 5)%nat).
    assert (Hk : (k <= List.length (window ++ [r]))%nat) by (unfold k; lia).
    rewrite skipn_skipn_app by exact Hk.
    rewrite <- app_assoc. cbn [app].
    f_equal.
    rewrite length_app, length_skipn.
    replace (List.length (window ++ r :: readings))
      with (List.length (window ++ [r]) + List.length readings)%nat
      by (rewrite !length_app; simpl; lia).
    assert (Hone : (1 <= List.length (window ++ [r]))%nat)
      by (rewrite length_app; simpl; lia).
    assert (Hsix : (List.length (window ++ [r]) <= 6)%nat)
      by (rewrite length_app; simpl; lia).
    unfold k. lia.
Qed.


Lemma window_is_last_five_witness :
  (List.length [Num 1; Num 2; Num 3] <= 5)%nat /\
  fold_left push [Num 4; PyNone; Num 6; Num 7] [Num 1; Num 2; Num 3] =
    [Num 3; Num 4; PyNone; Num 6; Num 7].
Proof.
  assert (Hlen : (List.length [Num 1; Num 2; Num 3] <= 5)%nat) by (simpl; lia).
  split; [exact Hlen |].
  exact (proj1 (window_is_last_five [Num 4; PyNone; Num 6; Num 7]
                                    [Num 1; Num 2; Num 3] Hlen)).
Defined.

(** ** When the classifier raises (lines 92-95) *)

Lemma max_from_none (rest : list reading) (best : Q) :
  In PyNone rest -> max_from (Num best) rest = Raise TypeError.
Proof.
  revert best. induction rest as [| item rest IH]; intros best Hin; [destruct Hin |].
  destruct item as [x |]; [| reflexivity].
  destruct Hin as [Habs | Hin]; [discriminate Habs |].
  simpl. destruct (Qltb best x); apply IH; exact Hin.
Qed.

Lemma py_max_none (window : list reading) (q : Q) :
  In PyNone window -> In (Num q) window -> py_max window = Raise TypeError.
Proof.
  destruct window as [| first rest]; [intros [] |].
  destruct first as [b |]; intros Hnone Hnum; simpl.
  - destruct Hnone as [Habs | Hnone]; [discriminate Habs |].
    apply max_from_none. exact Hnone.
  - destruct Hnum as [Habs | Hnum]; [discriminate Habs |].
    destruct rest as [| item rest]; [destruct Hnum |]. reflexivity.
Qed.

Lemma numbers_or_none (window : list reading) :
  (exists qs : list Q, window = map Num qs) \/ In PyNone window.
Proof.
  induction window as [| r window [[qs ->] | Hnone]].
  - left. exists []. reflexivity.
  - destruct r as [q |].
    + left. exists (q :: qs). reflexivity.
    + right. left. reflexivity.
  - right. right. exact Hnone.
Qed.

Lemma numbers_hold_no_none (qs : list Q) : ~ In PyNone (map Num qs).
Proof.
  induction qs as [| q qs IH]; simpl; [tauto |].
  intros [Habs | Hin]; [discriminate Habs | exact (IH Hin)].
Qed.

(** X2. The classifier raises nothing but [TypeError], and raises it exactly
    when presence is reported and either the reading is [None], or the
    reading is inside the band while a [None] is still held in the window.
    In every other case it yields an event; [max] never sees an empty
    window. *)
Theorem classifier_raises (pir : Z) (d : reading) (window : list reading) (e : exn) :
  classify pir d (push window d) = Raise e <->
  e = TypeError /\ pir = 1 /\
  (d = PyNone \/
   exists q : Q, d = Num q /\ in_band q /\ In PyNone (push window d)).
Proof.
  unfold classify.
  destruct (Z.eqb_spec pir 1) as [-> | Hpir].
  2:{ split; [discriminate | intros (_ & Habs & _); contradiction]. }
  destruct d as [q |].
  2:{ cbn [py_lt bind ret Monad_outcome].
      split; [intros [= <-]; auto | intros (-> & _); reflexivity]. }
  cbn [py_lt bind ret Monad_outcome]. unfold in_band.
  destruct (Qltb 10 q) eqn:Hlo.
  2:{ apply Qltb_ge in Hlo.
      split; [discriminate |].
      intros (_ & _ & [Habs | (q' & [= <-] & [Hband _] & _)]);
        [discriminate Habs | exfalso; lra]. }
  destruct (Qltb q 100) eqn:Hhi.
  2:{ apply Qltb_ge in Hhi.
      split; [discriminate |].
      intros (_ & _ & [Habs | (q' & [= <-] & [_ Hband] & _)]);
        [discriminate Habs | exfalso; lra]. }
  apply Qltb_lt in Hlo, Hhi.
  destruct (numbers_or_none (push window (Num q))) as [[qs Hqs] | Hnone].
  - pose proof (push_holds_reading window (Num q)) as Hin.
    rewrite Hqs in *.
    destruct qs as [| first rest]; [destruct Hin |].
    cbn [py_max py_min map].
    rewrite max_from_numbers, min_from_numbers.
    cbn [py_sub py_gt py_lt bind ret Monad_outcome].
    split; [discriminate |].
    intros (_ & _ & [Habs | (q' & _ & _ & Hnone)]); [discriminate Habs |].
    exfalso. exact (numbers_hold_no_none (first :: rest) Hnone).
  - rewrite (py_max_none _ q Hnone (push_holds_reading window (Num q))).
    cbn [bind Monad_outcome].
    split.
    + intros [= <-]. repeat split. right. exists q. repeat split; assumption.
    + intros (-> & _). reflexivity.
Qed.

(** ** The band and the spread, over any window (lines 92-95) *)

Lemma classify_out_of_band (d : Q) (window : list reading) :
  (d <= 10 \/ 100 <= d)%Q -> classify 1 (Num d) window = Ret NoEvent.
Proof.
  intros Hout. unfold classify. cbn [Z.eqb Pos.eqb py_lt bind ret Monad_outcome].
  destruct (Qltb 10 d) eqn:Hlo; [| reflexivity].
  destruct (Qltb d 100) eqn:Hhi; [| reflexivity].
  apply Qltb_lt in Hlo, Hhi. exfalso. lra.
Qed.

Lemma classify_in_band (d : Q) (window : list reading) :
  in_band d ->
  (In PyNone (push window (Num d)) ->
   classify 1 (Num d) (push window (Num d)) = Raise TypeError) /\
  (forall qs : list Q,
      push window (Num d) = map Num qs ->
      classify 1 (Num d) (push window (Num d)) =
      Ret (if Qltb 20 (round (spec_spread qs)) then Trigger (Num d) else Idle (Num d))).
Proof.
  intros [Hlo Hhi]. apply Qltb_lt in Hlo, Hhi.
  split.
  - intros Hnone. unfold classify. cbn [Z.eqb Pos.eqb py_lt bind ret Monad_outcome].
    rewrite Hlo, Hhi.
    rewrite (py_max_none _ d Hnone (push_holds_reading window (Num d))). reflexivity.
  - intros qs Hqs.
    pose proof (push_holds_reading window (Num d)) as Hin.
    rewrite Hqs in *.
    destruct qs as [| first rest]; [destruct Hin |].
    rewrite classify_numbers, Hlo, Hhi. reflexivity.
Qed.

(** C7 (as the code has it). With presence and a numeric reading, whatever
    the window holds: a reading of 10 or less, or of 100 or more, is
    [NoEvent]; a reading strictly between 10 and 100 is [Idle] or [Trigger]
    when the window holds numbers only, and raises [TypeError] when a [None]
    is still held in it.  So a tick that is classified at all is [Idle] or
    [Trigger] exactly when the reading lies strictly between 10 and 100. *)
Theorem band_is_open (d : Q) (window : list reading) :
  let pushed := push window (Num d) in
  ((d <= 10 \/ 100 <= d)%Q -> classify 1 (Num d) pushed = Ret NoEvent) /\
  (in_band d -> ~ In PyNone pushed ->
   classify 1 (Num d) pushed = Ret (Idle (Num d)) \/
   classify 1 (Num d) pushed = Ret (Trigger (Num d))) /\
  (in_band d -> In PyNone pushed -> classify 1 (Num d) pushed = Raise TypeError) /\
  (forall event : DetectionEvent,
      classify 1 (Num d) pushed = Ret event ->
      ((event = Idle (Num d) \/ event = Trigger (Num d)) <-> in_band d) /\
      (event = NoEvent <-> (d <= 10 \/ 100 <= d)%Q)).
Proof.
  intros pushed.
  assert (Hnumbers : in_band d -> ~ In PyNone pushed ->
            exists event, classify 1 (Num d) pushed = Ret event /\
                          (event = Idle (Num d) \/ event = Trigger (Num d))).
  { intros Hband Hnum.
    destruct (numbers_or_none pushed) as [[qs Hqs] | Hnone]; [| contradiction].
    unfold pushed in *. rewrite (proj2 (classify_in_band d window Hband) qs Hqs).
    destruct (Qltb 20 (round (spec_spread qs))); eexists; split; eauto. }
  split; [apply classify_out_of_band | split; [| split]].
  - intros Hband Hnum.
    destruct (Hnumbers Hband Hnum) as (event & -> & [-> | ->]); auto.
  - intros Hband. exact (proj1 (classify_in_band d window Hband)).
  - intros event Hevent. unfold in_band.
    destruct (Qlt_le_dec 10 d) as [Hlo | Hlo]; [destruct (Qlt_le_dec d 100) as [Hhi | Hhi] |].
    + destruct (numbers_or_none pushed) as [[qs Hqs] | Hnone].
      * assert (Hnum : ~ In PyNone pushed)
          by (rewrite Hqs; apply numbers_hold_no_none).
        destruct (Hnumbers (conj Hlo Hhi) Hnum) as (event' & Hrun & Hkind).
        rewrite Hrun in Hevent. injection Hevent as <-.
        split; split; intros H; try tauto.
        -- destruct Hkind as [-> | ->]; discriminate H.
        -- exfalso; lra.
      * unfold pushed in *.
        rewrite (proj1 (classify_in_band d window (conj Hlo Hhi)) Hnone) in Hevent.
        discriminate Hevent.
    + unfold pushed in *. rewrite classify_out_of_band in Hevent by auto.
      injection Hevent as <-.
      split; split; intros H; try tauto; try reflexivity.
      * destruct H as [H | H]; discriminate H.
      * exfalso; lra.
    + unfold pushed in *. rewrite classify_out_of_band in Hevent by auto.
      injection Hevent as <-.
      split; split; intros H; try tauto; try reflexivity.
      * destruct H as [H | H]; discriminate H.
      * exfalso; lra.
Qed.

Section Spread.

(** Of the rounding: it keeps the order, and leaves small integers as they
    are.  Both hold of round-to-nearest in every binary float format. *)
Hypothesis round_monotone : forall x y : Q, (x <= y -> round x <= round y)%Q.
Hypothesis round_integer :
  forall n : Z, Z.abs n <= 65536 -> (round (inject_Z n) == inject_Z n)%Q.

Lemma round_compat (x y : Q) : (x == y -> round x == round y)%Q.
Proof.
  intros Heq. apply Qle_antisym; apply round_monotone; rewrite Heq; apply Qle_refl.
Qed.

Lemma round_over_twenty (x : Q) : (20 < round x -> 20 < x)%Q.
Proof.
  intros Hover.
  destruct (Qlt_le_dec 20 x) as [Hx | Hx]; [exact Hx |].
  pose proof (round_monotone x 20 Hx) as Hle.
  pose proof (round_integer 20 ltac:(lia)) as H20.
  change (inject_Z 20) with 20%Q in H20.
  exfalso. lra.
Qed.

(** C9 (as the code has it). With presence, a reading strictly between 10
    and 100 and a window of numbers only, the spread computed is the float
    difference of the greatest and the least number of the window, the
    reading just pushed included and however few samples it holds; the tick
    is [Trigger] when that computed difference exceeds 20 and [Idle]
    otherwise.  It is [Idle] whenever the exact difference is at most 20,
    and a [Trigger] only when the exact difference exceeds 20.  So for the
    two windows of the specification, and a window of one sample is never a
    [Trigger]. *)
Theorem spread_rule (d : Q) (window : list reading) :
  in_band d ->
  let pushed := push window (Num d) in
  ~ In PyNone pushed ->
  let exact := spec_spread (values pushed) in
  let computed := round exact in
  (exists event : DetectionEvent,
      classify 1 (Num d) pushed = Ret event /\
      ((20 < computed)%Q -> event = Trigger (Num d)) /\
      ((computed <= 20)%Q -> event = Idle (Num d)) /\
      ((exact <= 20)%Q -> event = Idle (Num d)) /\
      (event = Trigger (Num d) -> (20 < exact)%Q)) /\
  (classify 1 (Num 75) [Num 50; Num 52; Num 51; Num 53; Num 75] = Ret (Trigger (Num 75)) /\
   spec_spread [50; 52; 51; 53; 75] == 25)%Q /\
  (classify 1 (Num 54) [Num 50; Num 51; Num 52; Num 53; Num 54] = Ret (Idle (Num 54)) /\
   spec_spread [50; 51; 52; 53; 54] == 4)%Q /\
  (classify 1 (Num d) [Num d] = Ret (Idle (Num d)) /\ spec_spread [d] == 0)%Q.
Proof.
  intros Hband pushed Hnum exact computed.
  split; [| split; [| split]].
  - destruct (numbers_or_none pushed) as [[qs Hqs] | Hnone]; [| contradiction].
    assert (Hexact : exact = spec_spread qs)
      by (unfold exact; rewrite Hqs, values_numbers; reflexivity).
    unfold computed. rewrite Hexact.
    unfold pushed in *. rewrite (proj2 (classify_in_band d window Hband) qs Hqs).
    eexists; split; [reflexivity |].
    destruct (Qltb 20 (round (spec_spread qs))) eqn:Hmoved.
    + apply Qltb_lt in Hmoved. pose proof (round_over_twenty _ Hmoved) as Hover.
      repeat split; intros H; try reflexivity; try (exfalso; lra). exact Hover.
    + apply Qltb_ge in Hmoved.
      repeat split; intros H; try reflexivity; try (exfalso; lra). discriminate H.
  - split; [| reflexivity].
    change [Num 50; Num 52; Num 51; Num 53; Num 75]
      with (map Num [50; 52; 51; 53; 75]%Q).
    assert (Hmoved : Qltb 20 (round (spec_spread [50; 52; 51; 53; 75]%Q)) = true).
    { apply Qltb_lt. change (spec_spread [50; 52; 51; 53; 75]%Q) with (inject_Z 25).
      rewrite (round_integer 25) by lia. reflexivity. }
    rewrite classify_numbers, Hmoved. reflexivity.
  - split; [| reflexivity].
    change [Num 50; Num 51; Num 52; Num 53; Num 54]
      with (map Num [50; 51; 52; 53; 54]%Q).
    assert (Hstill : Qltb 20 (round (spec_spread [50; 51; 52; 53; 54]%Q)) = false).
    { apply Qltb_ge. change (spec_spread [50; 51; 52; 53; 54]%Q) with (inject_Z 4).
      rewrite (round_integer 4) by lia. discriminate. }
    rewrite classify_numbers, Hstill. reflexivity.
  - assert (Hzero : (spec_spread [d] == 0)%Q) by (cbn [spec_spread fold_left]; ring).
    split; [| exact Hzero].
    destruct Hband as [Hlo Hhi]. apply Qltb_lt in Hlo, Hhi.
    change [Num d] with (map Num [d]).
    rewrite classify_numbers, Hlo, Hhi. cbn [Z.eqb Pos.eqb andb].
    assert (Hstill : Qltb 20 (round (spec_spread [d])) = false).
    { apply Qltb_ge. rewrite (round_compat _ _ Hzero).
      change 0%Q with (inject_Z 0). rewrite (round_integer 0) by lia. discriminate. }
    rewrite Hstill. reflexivity.
Qed.

End Spread.

(** ** A completed tick, taken apart (lines 85-107) *)

Lemma on_event_completed (i : TickInput) (l : Locals) (event : DetectionEvent)
    (w w1 : World) (label : string) :
  on_event i l event w = (Ret label, w1) ->
  match event with
  | Trigger d =>
      (exists q : Q, d = Num q) /\
      w1 = after_trigger i l d w /\ label = label_at (after_trigger i l d w)
  | Idle _ | NoEvent =>
      w1 = append_events (status_events "watching" (last_detection_time l)) w /\
      label = last_detection_time l
  end.
Proof.
  destruct event as [| d | d].
  - rewrite on_event_quiet by discriminate. intros [= <- <-]. split; reflexivity.
  - rewrite on_event_quiet by discriminate. intros [= <- <-]. split; reflexivity.
  - unfold on_event, after_trigger; cbn [bind ret Monad_M]. rewrite display_status_run.
    set (shown := append_events _ w).
    destruct (activate_pump (hold i) shown) as [[[] | e] pumped] eqn:Hpump; [| discriminate].
    apply activate_pump_completed in Hpump. subst pumped.
    unfold log_event, utime_time, detection_label; cbn [bind ret Monad_M].
    destruct d as [q |]; [| discriminate].
    intros [= <- <-]. split; [exists q; reflexivity | split; reflexivity].
Qed.

Lemma loop_body_completed (i : TickInput) (l l' : Locals) (w w' : World) :
  loop_body i l w = (Ret l', w') ->
  exists (event : DetectionEvent) (label : string) (w1 : World),
    classify (pir_value i) (distance i) (push (last_distances l) (distance i)) = Ret event /\
    on_event i l event w = (Ret label, w1) /\
    pause i = Resumed /\
    w' = after_pause w1 /\
    l' = mkLocals (push (last_distances l) (distance i)) label.
Proof.
  unfold loop_body, eval; cbn [bind ret Monad_M].
  destruct (classify _ _ _) as [event |] eqn:Hclass; [| discriminate].
  destruct (on_event i l event w) as [[label | e] w1] eqn:Hevent; [| discriminate].
  unfold asyncio_sleep. destruct (pause i); [| discriminate].
  intros [= <- <-].
  exists event, label, w1. repeat split; assumption || reflexivity.
Qed.

(** X3. A completed tick that is not a [Trigger], so any tick without
    presence or with a reading outside the band, leaves the relay and the
    three globals as they were: it shows the "watching" status with the
    label of the last detection, pauses 0.1 s and keeps that label. *)
Theorem quiet_tick_changes_nothing (i : TickInput) (l l' : Locals) (w w' : World)
    (event : DetectionEvent) :
  loop_body i l w = (Ret l', w') ->
  classify (pir_value i) (distance i) (push (last_distances l) (distance i)) = Ret event ->
  (forall d, event <> Trigger d) ->
  relay w' = relay w /\
  last_activation_time w' = last_activation_time w /\
  activations_count w' = activations_count w /\
  last_activation_minute w' = last_activation_minute w /\
  clock w' = clock w + 100 /\
  events w' = events w ++ status_events "watching" (last_detection_time l) ++ [Sleep 100] /\
  last_detection_time l' = last_detection_time l.
Proof.
  intros Hbody Hclass Hquiet.
  destruct (loop_body_completed i l l' w w' Hbody)
    as (event' & label & w1 & Hclass' & Hevent & _ & -> & ->).
  rewrite Hclass in Hclass'. injection Hclass' as <-.
  rewrite on_event_quiet in Hevent by exact Hquiet.
  injection Hevent as <- <-.
  unfold after_pause, append_events; cbn.
  rewrite <- app_assoc. repeat split.
Qed.

Lemma actuates_eq_gate (w : World) :
  actuates w =
  (COOLDOWN_PERIOD <? now w - last_activation_time w)
  && (count_at_gate w <? MAX_ACTIVATIONS_PER_MINUTE).
Proof.
  pose proof (actuates_iff_gate w) as Hiff.
  destruct (actuates w);
    destruct ((COOLDOWN_PERIOD <? now w - last_activation_time w)
              && (count_at_gate w <? MAX_ACTIVATIONS_PER_MINUTE));
    try reflexivity.
  - symmetry. apply Hiff. reflexivity.
  - apply Hiff. reflexivity.
Qed.

(** What is on the trace does not bear on the gate. *)
Lemma actuates_append_events (extra : list io_event) (w : World) :
  actuates (append_events extra w) = actuates w.
Proof.
  rewrite !actuates_eq_gate. reflexivity.
Qed.

Lemma after_trigger_events (i : TickInput) (l : Locals) (d : reading) (w : World) :
  exists extra : list io_event,
    events (after_trigger i l d w) =
      events w ++ status_events "angry" (last_detection_time l) ++ extra
      ++ [FileAppend (mkLogEntry
            (now w + (if actuates w then PUMP_ACTIVATION_TIME else 0))
            "Cat Detected" d (pir_value i))] /\
    extra = (if actuates w
             then [RelayOn; Sleep (1000 * PUMP_ACTIVATION_TIME); RelayOff]
             else if MAX_ACTIVATIONS_PER_MINUTE <=? count_at_gate w
             then [OledFill 0; OledText "ERROR:" 0 0;
                   OledText "Too many activations" 0 10; OledShow]
             else []).
Proof.
  unfold after_trigger.
  set (shown := append_events (status_events "angry" (last_detection_time l)) w).
  assert (Hact : actuates shown = actuates w) by apply actuates_append_events.
  assert (Hgate : count_at_gate shown = count_at_gate w) by reflexivity.
  assert (Hnow : now shown = now w) by reflexivity.
  rewrite run_activate_pump, Hact, Hgate.
  eexists. split; [| reflexivity].
  destruct (actuates w); [| destruct (MAX_ACTIVATIONS_PER_MINUTE <=? count_at_gate w)];
    unfold shown, append_events, now; cbn [events clock];
    rewrite <- ?app_assoc, ?now_after_hold, ?Z.add_0_r, ?app_nil_l; reflexivity.
Qed.

(** X4. A completed [Trigger] tick appends exactly one record, and both the
    record and the new label carry the time at which [activate_pump]
    returned: [PUMP_ACTIVATION_TIME] seconds after the recorded activation
    start when the pump ran, the time of the call when it was refused.  The
    tick lasts the 0.1 s pause, plus the hold when the pump ran. *)
Theorem trigger_tick_record (i : TickInput) (l l' : Locals) (w w' : World) (d : reading) :
  loop_body i l w = (Ret l', w') ->
  classify (pir_value i) (distance i) (push (last_distances l) (distance i))
    = Ret (Trigger d) ->
  let returned := now w + (if actuates w then PUMP_ACTIVATION_TIME else 0) in
  filter is_log_write (skipn (List.length (events w)) (events w')) =
    [FileAppend (mkLogEntry returned "Cat Detected" d (pir_value i))] /\
  last_detection_time l' =
    (fmt02d ((returned / 3600) mod 24) ++ ":" ++ fmt02d ((returned / 60) mod 60))%string /\
  clock w' = clock w + 100 + (if actuates w then 1000 * PUMP_ACTIVATION_TIME else 0) /\
  (actuates w = true -> returned = last_activation_time w' + PUMP_ACTIVATION_TIME).
Proof.
  intros Hbody Hclass returned.
  destruct (loop_body_completed i l l' w w' Hbody)
    as (event & label & w1 & Hclass' & Hevent & _ & -> & ->).
  rewrite Hclass in Hclass'. injection Hclass' as <-.
  apply on_event_completed in Hevent. destruct Hevent as (_ & -> & ->).
  destruct (after_trigger_events i l d w) as (extra & Hevents & Hextra).
  assert (Hclock : clock (after_trigger i l d w) =
                   clock w + (if actuates w then 1000 * PUMP_ACTIVATION_TIME else 0)).
  { unfold after_trigger.
    set (shown := append_events (status_events "angry" (last_detection_time l)) w).
    rewrite run_activate_pump, (actuates_append_events _ w : actuates shown = actuates w).
    destruct (actuates w);
      [| destruct (MAX_ACTIVATIONS_PER_MINUTE <=? count_at_gate shown)];
      cbn [append_events clock]; unfold shown; cbn [append_events clock]; lia. }
  assert (Hnow : now (after_trigger i l d w) = returned).
  { unfold now at 1. rewrite Hclock. unfold returned.
    destruct (actuates w); [apply now_after_hold | rewrite !Z.add_0_r; reflexivity]. }
  split; [| split; [| split]].
  - cbn [after_pause events]. rewrite Hevents, <- !app_assoc, skipn_own_length.
    rewrite !filter_app, (proj1 (status_events_quiet _ _)).
    assert (Hnolog : filter is_log_write extra = []).
    { rewrite Hextra. destruct (actuates w);
        [| destruct (MAX_ACTIVATIONS_PER_MINUTE <=? count_at_gate w)]; reflexivity. }
    rewrite Hnolog. reflexivity.
  - cbn [last_detection_time]. unfold label_at. rewrite Hnow. reflexivity.
  - cbn [after_pause clock]. rewrite Hclock. lia.
  - intros Hact. unfold returned. rewrite Hact. f_equal.
    unfold after_trigger.
    set (shown := append_events (status_events "angry" (last_detection_time l)) w).
    rewrite run_activate_pump, (actuates_append_events _ w : actuates shown = actuates w), Hact.
    reflexivity.
Qed.

(** ** Runs of the loop *)

Lemma occurrences_app (kind : io_event -> bool) (a b : list io_event) :
  occurrences kind (a ++ b) = (occurrences kind a + occurrences kind b)%nat.
Proof.
  unfold occurrences. rewrite filter_app, length_app. reflexivity.
Qed.

Lemma status_events_counts (status label : string) :
  occurrences is_relay_on (status_events status label) = 0%nat /\
  occurrences is_relay_off (status_events status label) = 0%nat /\
  occurrences is_log_write (status_events status label) = 0%nat.
Proof.
  unfold status_events.
  destruct (String.eqb status "watching"); [| destruct (String.eqb status "angry")];
    repeat split.
Qed.

(** What one completed tick adds to the trace, counted by kind. *)
Lemma loop_body_counts (i : TickInput) (l l' : Locals) (w w' : World) :
  loop_body i l w = (Ret l', w') ->
  exists extra : list io_event,
    events w' = events w ++ extra /\
    occurrences is_relay_on extra = occurrences is_relay_off extra /\
    (occurrences is_relay_on extra <= occurrences is_log_write extra <= 1)%nat.
Proof.
  intros Hbody.
  destruct (loop_body_completed i l l' w w' Hbody)
    as (event & label & w1 & _ & Hevent & _ & -> & _).
  apply on_event_completed in Hevent.
  destruct (status_events_counts "watching" (last_detection_time l)) as (Hon & Hoff & Hlog).
  destruct (status_events_counts "angry" (last_detection_time l)) as (Hon' & Hoff' & Hlog').
  destruct event as [| d | d].
  - destruct Hevent as [-> _].
    exists (status_events "watching" (last_detection_time l) ++ [Sleep 100]).
    split; [cbn; rewrite <- app_assoc; reflexivity |].
    rewrite !occurrences_app, Hon, Hoff, Hlog. cbn. lia.
  - destruct Hevent as [-> _].
    exists (status_events "watching" (last_detection_time l) ++ [Sleep 100]).
    split; [cbn; rewrite <- app_assoc; reflexivity |].
    rewrite !occurrences_app, Hon, Hoff, Hlog. cbn. lia.
  - destruct Hevent as (_ & -> & _).
    destruct (after_trigger_events i l d w) as (extra & Hevents & Hextra).
    eexists. split.
    + cbn [after_pause events]. rewrite Hevents, <- !app_assoc. reflexivity.
    + rewrite !occurrences_app, Hon', Hoff', Hlog', Hextra.
      destruct (actuates w); [| destruct (MAX_ACTIVATIONS_PER_MINUTE <=? count_at_gate w)];
        cbn; lia.
Qed.

(** X5. Over any completed run of the loop the relay is driven off as often
    as on, every actuation is followed by a log record (so the pump never
    runs unlogged), and a tick contributes at most one record. *)
Theorem every_actuation_is_logged (inputs : list TickInput) (l l' : Locals) (w w' : World) :
  detect_motion inputs l w = (Ret l', w') ->
  exists extra : list io_event,
    events w' = events w ++ extra /\
    occurrences is_relay_on extra = occurrences is_relay_off extra /\
    (occurrences is_relay_on extra <= occurrences is_log_write extra
       <= List.length inputs)%nat.
Proof.
  revert l w. induction inputs as [| i rest IH]; intros l w;
    cbn [detect_motion bind ret Monad_M].
  - intros [= _ <-]. exists []. rewrite app_nil_r. cbn. repeat split; lia.
  - destruct (loop_body i l w) as [[l1 | e] w1] eqn:Hbody; [| discriminate].
    intros Hrest.
    destruct (loop_body_counts i l l1 w w1 Hbody) as (first & Hfirst & Hbal & Hle).
    destruct (IH l1 w1 Hrest) as (others & Hothers & Hbal' & Hle').
    exists (first ++ others).
    split; [rewrite Hothers, Hfirst, app_assoc; reflexivity |].
    rewrite !occurrences_app. cbn [List.length]. lia.
Qed.

Lemma detect_motion_window (inputs : list TickInput) :
  forall (l l' : Locals) (w w' : World),
    detect_motion inputs l w = (Ret l', w') ->
    last_distances l' = fold_left push (map distance inputs) (last_distances l).
Proof.
  induction inputs as [| i rest IH]; intros l l' w w';
    cbn [detect_motion bind ret Monad_M map fold_left].
  - intros [= <- _]. reflexivity.
  - destruct (loop_body i l w) as [[l1 | e] w1] eqn:Hbody; [| discriminate].
    intros Hrest. rewrite (IH l1 l' w1 w' Hrest).
    destruct (loop_body_completed i l l1 w w1 Hbody) as (ev & lab & v & _ & _ & _ & _ & Hl1).
    rewrite Hl1. reflexivity.
Qed.

Lemma fold_push_length (readings window : list reading) :
  (List.length window <= 5)%nat ->
  (List.length (fold_left push readings window) <= 5)%nat.
Proof.
  revert window. induction readings as [| r readings IH]; intros window Hlen; simpl.
  - exact Hlen.
  - apply IH, push_length, Hlen.
Qed.

(** X6. From start-up on, however many ticks have completed and whatever
    they read: the relay is off between ticks, the count of the minute lies
    within the cap, and the window holds the latest five readings at most. *)
Theorem loop_keeps_invariants (inputs : list TickInput) (l l' : Locals) (w w' : World) :
  reachable w ->
  (List.length (last_distances l) <= 5)%nat ->
  detect_motion inputs l w = (Ret l', w') ->
  relay w' = false /\
  0 <= activations_count w' <= MAX_ACTIVATIONS_PER_MINUTE /\
  (List.length (last_distances l') <= 5)%nat /\
  last_distances l' = fold_left push (map distance inputs) (last_distances l).
Proof.
  intros Hw Hlen Hrun.
  pose proof (detect_motion_reachable inputs l l' w w' Hw Hrun) as Hw'.
  split; [exact (reachable_relay_off w' Hw') |].
  split; [exact (reachable_count_range w' Hw') |].
  rewrite (detect_motion_window inputs l l' w w' Hrun).
  split; [apply fold_push_length; exact Hlen | reflexivity].
Qed.

(** ** Runs of the loop that end in an exception *)

Lemma on_event_raised (i : TickInput) (l : Locals) (event : DetectionEvent)
    (w w1 : World) (e : exn) :
  reachable w ->
  on_event i l event w = (Raise e, w1) ->
  reachable w1 \/
  (e = CancelledError /\ relay w1 = true /\
   exists before : list io_event, events w1 = before ++ [RelayOn]).
Proof.
  intros Hw.
  destruct event as [| d | d].
  - rewrite on_event_quiet by discriminate. discriminate.
  - rewrite on_event_quiet by discriminate. discriminate.
  - unfold on_event; cbn [bind ret Monad_M]. rewrite display_status_run.
    set (shown := append_events (status_events "angry" (last_detection_time l)) w).
    assert (Hshown : reachable shown)
      by (apply reachable_append; [apply status_events_no_relay | exact Hw]).
    destruct (hold i).
    + rewrite activate_pump_returns.
      unfold log_event, utime_time, detection_label; cbn [bind ret Monad_M].
      destruct d as [q |]; [discriminate |].
      intros [= _ <-]. left. apply reach_call, Hshown.
    + rewrite activate_pump_cancelled.
      destruct (actuates shown).
      * intros [= <- <-]. right. cbn [relay events].
        repeat split. eexists. reflexivity.
      * rewrite activate_pump_returns.
        unfold log_event, utime_time, detection_label; cbn [bind ret Monad_M].
        destruct d as [q |]; [discriminate |].
        intros [= _ <-]. left. apply reach_call, Hshown.
Qed.

Lemma loop_body_raised (i : TickInput) (l : Locals) (w w' : World) (e : exn) :
  reachable w ->
  loop_body i l w = (Raise e, w') ->
  reachable w' \/
  (e = CancelledError /\ relay w' = true /\
   exists before : list io_event, events w' = before ++ [RelayOn]).
Proof.
  intros Hw.
  unfold loop_body, eval; cbn [bind ret Monad_M].
  destruct (classify _ _ _) as [event | e0]; [| intros [= _ <-]; left; exact Hw].
  destruct (on_event i l event w) as [[label | e1] w1] eqn:Hevent.
  - apply on_event_reachable in Hevent; [| exact Hw].
    unfold asyncio_sleep. destruct (pause i); [discriminate |].
    intros [= _ <-]. left. exact Hevent.
  - intros [= <- <-]. exact (on_event_raised i l event w w1 e1 Hw Hevent).
Qed.

(** X7. When the loop ends in an exception, the relay is on only if the
    exception is a cancellation that struck during the pump-on hold, the
    relay having just been driven on; a [TypeError] from a bad reading, or a
    cancellation during the pause between ticks, leaves the pump off. *)
Theorem crash_leaves_pump_off (inputs : list TickInput) (l : Locals) (w w' : World) (e : exn) :
  reachable w ->
  detect_motion inputs l w = (Raise e, w') ->
  (relay w' = true ->
   e = CancelledError /\ exists before : list io_event, events w' = before ++ [RelayOn]) /\
  (e <> CancelledError -> relay w' = false).
Proof.
  intros Hw Hrun.
  assert (Hcases : reachable w' \/
            (e = CancelledError /\ relay w' = true /\
             exists before : list io_event, events w' = before ++ [RelayOn])).
  { revert l w Hw Hrun. induction inputs as [| i rest IH]; intros l w Hw;
      cbn [detect_motion bind ret Monad_M]; [discriminate |].
    destruct (loop_body i l w) as [[l1 | e1] w1] eqn:Hbody.
    - apply IH. exact (loop_body_reachable i l l1 w w1 Hw Hbody).
    - intros [= <- <-]. exact (loop_body_raised i l w w1 e1 Hw Hbody). }
  destruct Hcases as [Hreach | (He & Hon & Hlast)].
  - apply reachable_relay_off in Hreach. rewrite Hreach.
    split; [discriminate | reflexivity].
  - split; [intros _; split; assumption | intros Hne; contradiction].
Qed.

(** ** A hold that is cancelled (lines 56-60) *)

(** X8. Cancellation can only strike a call that passed the gate, since a
    refused call never awaits.  A call cancelled during the hold ends with
    the relay on and with lines 59-60 not run: the activation is recorded
    neither for the cooldown nor for the count, so a trigger at any later
    clock reading passes the gate again. *)
Theorem cancelled_hold_is_not_recorded (w : World) :
  (actuates w = false -> activate_pump Cancelled w = activate_pump Resumed w) /\
  (actuates w = true ->
   exists w' : World,
     activate_pump Cancelled w = (Raise CancelledError, w') /\
     relay w' = true /\
     last_activation_time w' = last_activation_time w /\
     activations_count w' = count_at_gate w /\
     forall c : Z, clock w <= c -> actuates (at_clock c w') = true).
Proof.
  rewrite activate_pump_cancelled.
  split; intros Hact; rewrite Hact; [reflexivity |].
  eexists. split; [reflexivity |]. cbn [relay last_activation_time activations_count].
  repeat split.
  intros c Hc.
  apply actuates_iff_gate, gate_true_iff in Hact. destruct Hact as [Hcool Hcap].
  apply actuates_iff_gate, gate_true_iff.
  assert (Hlater : now w <= c / 1000) by (apply Z.div_le_mono; lia).
  unfold count_at_gate, now; cbn [at_clock clock last_activation_time
                                    activations_count last_activation_minute].
  fold (now w). split; [lia |].
  destruct (c / 1000 / 60 =? now w / 60); [exact Hcap |].
  unfold MAX_ACTIVATIONS_PER_MINUTE. lia.
Qed.

(** ** Spacing of the activations (lines 55-60) *)

(** X9. However the clock readings of successive triggers are chosen, the
    activation starts are more than [COOLDOWN_PERIOD] seconds apart, the
    first of them from the activation recorded before. *)
Theorem activations_are_spaced (clocks : list Z) (w : World) :
  spaced COOLDOWN_PERIOD (last_activation_time w) (actuation_times clocks w).
Proof.
  revert w. induction clocks as [| c rest IH]; intros w; cbn [actuation_times].
  - exact I.
  - set (v := at_clock c w).
    specialize (IH (run (activate_pump Resumed) v)).
    rewrite run_activate_pump in IH |- *.
    destruct (actuates v) eqn:Hact; cbn [app spaced].
    + apply actuates_iff_gate, gate_true_iff in Hact.
      split; [exact (proj1 Hact) | exact IH].
    + destruct (MAX_ACTIVATIONS_PER_MINUTE <=? count_at_gate v); exact IH.
Qed.

(** ** The cap and the cooldown together (lines 49-62) *)

(** Activations counted in a minute lie in that minute, each more than
    [COOLDOWN_PERIOD] seconds after the one before. *)
Lemma reachable_count_spread (w : World) :
  reachable w ->
  1 <= activations_count w ->
  60 * last_activation_minute w + (COOLDOWN_PERIOD + 1) * (activations_count w - 1)
    <= last_activation_time w <= 60 * last_activation_minute w + 59.
Proof.
  induction 1 as [c | w Hw IH | c w Hw IH | e w He Hw IH];
    cbn [initial_world at_clock run emit snd
         activations_count last_activation_time last_activation_minute].
  - lia.
  - pose proof (reachable_count_range w Hw) as Hrange.
    assert (Hdiv : 60 * (now w / 60) <= now w <= 60 * (now w / 60) + 59).
    { pose proof (Z.mul_div_le (now w) 60 ltac:(lia)).
      pose proof (Z.mul_succ_div_gt (now w) 60 ltac:(lia)). lia. }
    rewrite run_activate_pump.
    destruct (actuates w) eqn:Hact;
      [| destruct (MAX_ACTIVATIONS_PER_MINUTE <=? count_at_gate w)];
      cbn [activations_count last_activation_time last_activation_minute];
      try (apply actuates_iff_gate, gate_true_iff in Hact);
      unfold count_at_gate in *;
      destruct (Z.eqb_spec (now w / 60) (last_activation_minute w)) as [Heq | Hne];
      unfold COOLDOWN_PERIOD in *; intros Hone; try lia.
  - exact IH.
  - exact IH.
Qed.

(** X10. From start-up on the cap never decides: whenever the count of the
    minute has reached [MAX_ACTIVATIONS_PER_MINUTE] the cooldown has not yet
    run out (ten activations more than five seconds apart end at second 54
    of their minute), so a trigger actuates exactly when the cooldown has
    run out, and the error is only shown for triggers the cooldown refuses
    as well. *)
Theorem cap_never_decides (w : World) :
  reachable w ->
  (MAX_ACTIVATIONS_PER_MINUTE <= count_at_gate w ->
   now w - last_activation_time w <= COOLDOWN_PERIOD) /\
  (actuates w = true <-> now w - last_activation_time w > COOLDOWN_PERIOD) /\
  (shows_error w = true -> now w - last_activation_time w <= COOLDOWN_PERIOD).
Proof.
  intros Hw.
  assert (Hcap : MAX_ACTIVATIONS_PER_MINUTE <= count_at_gate w ->
                 now w - last_activation_time w <= COOLDOWN_PERIOD).
  { unfold count_at_gate.
    destruct (Z.eqb_spec (now w / 60) (last_activation_minute w)) as [Heq | Hne];
      unfold MAX_ACTIVATIONS_PER_MINUTE; [| lia].
    intros Hten.
    pose proof (reachable_count_spread w Hw ltac:(lia)) as Hspread.
    pose proof (Z.mul_succ_div_gt (now w) 60 ltac:(lia)) as Hdiv.
    rewrite Heq in Hdiv. unfold COOLDOWN_PERIOD in *. lia. }
  split; [exact Hcap | split].
  - rewrite actuates_iff_gate, gate_true_iff.
    split; [tauto |]. intros Hcool. split; [exact Hcool |]. lia.
  - rewrite shows_error_iff. exact Hcap.
Qed.

Lemma cap_never_decides_witness :
  reachable (at_clock 119000
               (handle_triggers
                  [60000; 66000; 72000; 78000; 84000; 90000; 96000; 102000; 108000; 114000]
                  (initial_world 0))) /\
  now (at_clock 119000
         (handle_triggers
            [60000; 66000; 72000; 78000; 84000; 90000; 96000; 102000; 108000; 114000]
            (initial_world 0)))
  - last_activation_time
      (at_clock 119000
         (handle_triggers
            [60000; 66000; 72000; 78000; 84000; 90000; 96000; 102000; 108000; 114000]
            (initial_world 0))) <= COOLDOWN_PERIOD.
Proof.
  assert (Hreach : forall clocks w, reachable w -> reachable (handle_triggers clocks w)).
  { induction clocks as [| c rest IH]; intros w Hw; cbn [handle_triggers]; [exact Hw |].
    apply IH, reach_call, reach_clock, Hw. }
  pose proof (reach_clock 119000 _ (Hreach
    [60000; 66000; 72000; 78000; 84000; 90000; 96000; 102000; 108000; 114000]
    (initial_world 0) (reach_boot 0))) as Hw.
  split; [exact Hw |].
  apply (proj2 (proj2 (cap_never_decides _ Hw))).
  vm_compute. reflexivity.
Defined.

(** ** Start-up (lines 109-119) *)

Lemma bar_width_range (i : Z) :
  0 <= i < INITIALIZATION_TIME -> 0 <= bar_width i <= 125.
Proof.
  unfold bar_width, INITIALIZATION_TIME, OLED_WIDTH. intros Hi.
  split.
  - apply Z.div_pos; lia.
  - apply Z.lt_succ_r, Z.div_lt_upper_bound; lia.
Qed.

Lemma py_range_bounds (n i : Z) : In i (py_range n) -> 0 <= i < n.
Proof.
  unfold py_range. rewrite in_map_iff. intros (k & <- & Hk).
  apply in_seq in Hk. lia.
Qed.

Lemma init_steps_bars (awaits : Z -> await_outcome) (steps : list Z) :
  forall (b : Boot) (x y wd h col : Z),
    In (BootFillRect x y wd h col) (boot_trace (snd (init_steps awaits steps b))) ->
    In (BootFillRect x y wd h col) (boot_trace b) \/
    (x = 0 /\ y = 20 /\ h = 10 /\ col = 1 /\ exists i, In i steps /\ wd = bar_width i).
Proof.
  induction steps as [| i rest IH]; intros b x y wd h col; cbn [init_steps].
  - cbn [snd]. auto.
  - assert (Hdrawn : forall tail,
              In (BootFillRect x y wd h col)
                 ((boot_trace b ++ [BootFillRect 0 20 (bar_width i) 10 1; BootShow]) ++ tail) ->
              In (BootFillRect x y wd h col) tail \/
              In (BootFillRect x y wd h col) (boot_trace b) \/
              (x = 0 /\ y = 20 /\ h = 10 /\ col = 1 /\
               exists j, In j (i :: rest) /\ wd = bar_width j)).
    { intros tail Hin.
      apply in_app_or in Hin. destruct Hin as [Hin | Hin]; [| auto].
      apply in_app_or in Hin. destruct Hin as [Hin | [Hin | [Hin | []]]];
        [auto | | discriminate Hin].
      injection Hin as <- <- <- <- <-.
      right. right. repeat split. exists i. split; [left |]; reflexivity. }
    destruct (awaits i).
    + intros Hin. apply IH in Hin. cbn [boot_trace] in Hin.
      destruct Hin as [Hin | (-> & -> & -> & -> & j & Hj & ->)].
      * apply Hdrawn in Hin. destruct Hin as [[Hin | []] | Hin]; [discriminate Hin | exact Hin].
      * right. repeat split. exists j. split; [right; exact Hj | reflexivity].
    + cbn [snd boot_trace]. intros Hin.
      rewrite <- (app_nil_r (_ ++ _)) in Hin.
      apply Hdrawn in Hin. destruct Hin as [[] | Hin]. exact Hin.
Qed.

(** X11. Whatever happens to its sleeps, every bar the start-up draws is the
    rectangle at (0, 20), 10 high, in colour 1, and at most 125 of the 128
    pixels wide: the bar grows with the step and never reaches the full
    width of the display. *)
Theorem progress_bar_never_full (awaits : Z -> await_outcome) (clock0 : Z) :
  (forall x y wd h col : Z,
      In (BootFillRect x y wd h col) (boot_trace (snd (main_init awaits clock0))) ->
      x = 0 /\ y = 20 /\ h = 10 /\ col = 1 /\ 0 <= wd <= 125 /\ wd < OLED_WIDTH) /\
  (forall i j : Z, 0 <= i <= j -> bar_width i <= bar_width j) /\
  bar_width 0 = 0 /\ bar_width (INITIALIZATION_TIME - 1) = 125.
Proof.
  split; [| split; [| split; reflexivity]].
  - intros x y wd h col Hin.
    assert (Hsteps : In (BootFillRect x y wd h col)
              (boot_trace (snd (init_steps awaits (py_range INITIALIZATION_TIME)
                 (mkBoot clock0 [Print "Initializing PIR sensor..."; BootFill 0;
                                 BootText "Initializing..." 0 0]))))).
    { unfold main_init in Hin.
      destruct (init_steps awaits _ _) as [[[] | e] b]; cbn [snd boot_trace] in *.
      - apply in_app_or in Hin. destruct Hin as [Hin | [Hin | []]];
          [exact Hin | discriminate Hin].
      - exact Hin. }
    apply init_steps_bars in Hsteps. cbn [boot_trace] in Hsteps.
    destruct Hsteps as [[Hin' | [Hin' | [Hin' | []]]] | (-> & -> & -> & -> & i & Hi & ->)];
      try discriminate Hin'.
    apply py_range_bounds, bar_width_range in Hi.
    unfold OLED_WIDTH. repeat split; lia.
  - intros i j Hij. unfold bar_width, OLED_WIDTH, INITIALIZATION_TIME.
    apply Z.div_le_mono; lia.
Qed.

Lemma py_range_holds (n i : Z) : 0 <= i < n -> In i (py_range n).
Proof.
  intros Hi. unfold py_range. apply in_map_iff.
  exists (Z.to_nat i). split; [lia | apply in_seq; lia].
Qed.

Lemma init_steps_spec (awaits : Z -> await_outcome) (steps : list Z) :
  forall b : Boot,
    match init_steps awaits steps b with
    | (Ret _, b') =>
        boot_clock b' = boot_clock b + 1000 * Z.of_nat (List.length steps) /\
        (forall i, In i steps -> awaits i = Resumed) /\
        List.length (filter is_boot_sleep (boot_trace b')) =
          (List.length (filter is_boot_sleep (boot_trace b)) + List.length steps)%nat
    | (Raise e, b') =>
        e = CancelledError /\
        boot_clock b <= boot_clock b' < boot_clock b + 1000 * Z.of_nat (List.length steps) /\
        exists i, In i steps /\ awaits i = Cancelled
    end.
Proof.
  induction steps as [| i rest IH]; intros b; cbn [init_steps].
  - cbn. repeat split; try lia.
  - destruct (awaits i) eqn:Hi.
    + specialize (IH (mkBoot (boot_clock b + 1000)
                             ((boot_trace b ++ [BootFillRect 0 20 (bar_width i) 10 1; BootShow])
                              ++ [BootSleep 1000]))).
      cbn [boot_clock boot_trace].
      destruct (init_steps awaits rest _) as [[[] | e] b']; cbn [boot_clock boot_trace] in IH.
      * destruct IH as (Hclock & Hall & Hsleeps).
        split; [cbn [List.length]; lia | split].
        -- intros j [<- | Hj]; [exact Hi | exact (Hall j Hj)].
        -- rewrite Hsleeps, !filter_app, !length_app. cbn. lia.
      * destruct IH as (He & Hclock & j & Hj & Hcancel).
        split; [exact He | split; [cbn [List.length]; lia |]].
        exists j. split; [right; exact Hj | exact Hcancel].
    + cbn [boot_clock]. split; [reflexivity | split; [cbn [List.length]; lia |]].
      exists i. split; [left; reflexivity | exact Hi].
Qed.

Lemma init_steps_prints (awaits : Z -> await_outcome) (steps : list Z) :
  forall (b : Boot) (s : string),
    In (Print s) (boot_trace (snd (init_steps awaits steps b))) -> In (Print s) (boot_trace b).
Proof.
  induction steps as [| i rest IH]; intros b s; cbn [init_steps]; [auto |].
  destruct (awaits i).
  - intros Hin. apply IH in Hin. cbn [boot_trace] in Hin.
    apply in_app_or in Hin. destruct Hin as [Hin | [Hin | []]]; [| discriminate Hin].
    apply in_app_or in Hin. destruct Hin as [Hin | [Hin | [Hin | []]]];
      [exact Hin | discriminate Hin | discriminate Hin].
  - cbn [snd boot_trace]. intros Hin.
    apply in_app_or in Hin. destruct Hin as [Hin | [Hin | [Hin | []]]];
      [exact Hin | discriminate Hin | discriminate Hin].
Qed.

Lemma startup_delay (awaits : Z -> await_outcome) (clock0 : Z) :
  match main_init awaits clock0 with
  | (Ret _, b) => boot_clock b = clock0 + 1000 * INITIALIZATION_TIME
  | (Raise _, _) => True
  end.
Proof.
  unfold main_init.
  pose proof (init_steps_spec awaits (py_range INITIALIZATION_TIME)
                (mkBoot clock0 [Print "Initializing PIR sensor..."; BootFill 0;
                                BootText "Initializing..." 0 0])) as Hspec.
  destruct (init_steps awaits _ _) as [[[] | e] b]; [| exact I].
  destruct Hspec as (Hclock & _). cbn [boot_clock] in *.
  rewrite Hclock. unfold py_range. rewrite length_map, length_seq.
  rewrite Z2Nat.id by (unfold INITIALIZATION_TIME; lia). reflexivity.
Qed.

(** X12. The start-up either completes or is cancelled.  It completes only
    if each of its [INITIALIZATION_TIME] one-second sleeps resumed; then
    exactly that many seconds have passed and it ends on "Starting
    detection...".  Otherwise a sleep was cancelled, less time has passed
    and that line is never printed. *)
Theorem startup_takes_its_time (awaits : Z -> await_outcome) (clock0 : Z) :
  match main_init awaits clock0 with
  | (Ret _, b) =>
      boot_clock b = clock0 + 1000 * INITIALIZATION_TIME /\
      (forall i, 0 <= i < INITIALIZATION_TIME -> awaits i = Resumed) /\
      List.length (filter is_boot_sleep (boot_trace b)) = Z.to_nat INITIALIZATION_TIME /\
      exists before, boot_trace b = before ++ [Print "Starting detection..."]
  | (Raise e, b) =>
      e = CancelledError /\
      clock0 <= boot_clock b < clock0 + 1000 * INITIALIZATION_TIME /\
      (exists i, 0 <= i < INITIALIZATION_TIME /\ awaits i = Cancelled) /\
      ~ In (Print "Starting detection...") (boot_trace b)
  end.
Proof.
  unfold main_init.
  set (started := mkBoot clock0 [Print "Initializing PIR sensor..."; BootFill 0;
                                 BootText "Initializing..." 0 0]).
  pose proof (init_steps_spec awaits (py_range INITIALIZATION_TIME) started) as Hspec.
  pose proof (init_steps_prints awaits (py_range INITIALIZATION_TIME) started
                "Starting detection...") as Hprints.
  assert (Hlen : List.length (py_range INITIALIZATION_TIME) = Z.to_nat INITIALIZATION_TIME)
    by (unfold py_range; rewrite length_map, length_seq; reflexivity).
  destruct (init_steps awaits (py_range INITIALIZATION_TIME) started) as [[[] | e] b];
    cbn [snd boot_clock boot_trace] in *.
  - destruct Hspec as (Hclock & Hall & Hsleeps).
    rewrite Hlen in *.
    rewrite Z2Nat.id in Hclock by (unfold INITIALIZATION_TIME; lia).
    split; [exact Hclock | split; [| split]].
    + intros i Hi. apply Hall, py_range_holds, Hi.
    + rewrite filter_app, length_app, Hsleeps. cbn. lia.
    + eexists. reflexivity.
  - destruct Hspec as (He & Hclock & i & Hi & Hcancel).
    rewrite Hlen, Z2Nat.id in Hclock by (unfold INITIALIZATION_TIME; lia).
    split; [exact He | split; [exact Hclock | split]].
    + exists i. split; [apply py_range_bounds, Hi | exact Hcancel].
    + intros Hin. apply Hprints in Hin.
      destruct Hin as [Hin | [Hin | [Hin | []]]]; discriminate Hin.
Qed.

(** ** The first detection after start-up *)

Lemma status_events_plain (status label : string) (e : io_event) :
  In e (status_events status label) -> is_relay_on e = false /\ is_log_write e = false.
Proof.
  intros Hin.
  destruct (status_events_quiet status label) as [Hlog Hon].
  split.
  - destruct (is_relay_on e) eqn:He; [| reflexivity].
    assert (Habs : In e (filter is_relay_on (status_events status label)))
      by (apply filter_In; split; assumption).
    rewrite Hon in Habs. destruct Habs.
  - destruct (is_log_write e) eqn:He; [| reflexivity].
    assert (Habs : In e (filter is_log_write (status_events status label)))
      by (apply filter_In; split; assumption).
    rewrite Hlog in Habs. destruct Habs.
Qed.

Lemma started_clean_tick (i : TickInput) (l l' : Locals) (w w' : World) :
  loop_body i l w = (Ret l', w') -> started_clean w -> started_clean w'.
Proof.
  intros Hbody Hinv.
  destruct (loop_body_completed i l l' w w' Hbody)
    as (event & label & w1 & _ & Hevent & _ & -> & _).
  apply on_event_completed in Hevent.
  assert (Hquiet : w1 = append_events (status_events "watching" (last_detection_time l)) w ->
                   started_clean (after_pause w1)).
  { intros ->. destruct Hinv as [(Hlast & Hcount & Hclock & Hplain) | (Hon & entry & Hlog)].
    - left. cbn [after_pause append_events last_activation_time activations_count
                 clock events].
      split; [exact Hlast | split; [exact Hcount | split; [lia |]]].
      intros e Hin.
      apply in_app_or in Hin. destruct Hin as [Hin | [<- | []]]; [| split; reflexivity].
      apply in_app_or in Hin. destruct Hin as [Hin | Hin];
        [apply (Hplain e Hin) | apply (status_events_plain _ _ e Hin)].
    - right. cbn. split; [| exists entry]; repeat (apply in_or_app; left); assumption. }
  destruct event as [| d | d]; try (destruct Hevent as [Hw1 _]; exact (Hquiet Hw1)).
  destruct Hevent as (_ & -> & _).
  destruct (after_trigger_events i l d w) as (extra & Hevents & Hextra).
  right. cbn [after_pause events]. rewrite Hevents.
  split.
  - destruct Hinv as [(Hlast & Hcount & Hclock & _) | (Hon & _)].
    + assert (Hact : actuates w = true).
      { apply actuates_iff_gate, gate_true_iff.
        assert (Hnow : INITIALIZATION_TIME <= now w)
          by (unfold now; apply Z.div_le_lower_bound; lia).
        unfold count_at_gate. rewrite Hlast, Hcount.
        unfold INITIALIZATION_TIME, COOLDOWN_PERIOD, MAX_ACTIVATIONS_PER_MINUTE in *.
        destruct (now w / 60 =? last_activation_minute w); lia. }
      rewrite Hextra, Hact.
      apply in_or_app; left. apply in_or_app; right. apply in_or_app; right.
      apply in_or_app; left. left. reflexivity.
    + repeat (apply in_or_app; left). exact Hon.
  - eexists. apply in_or_app; left. apply in_or_app; right. apply in_or_app; right.
    apply in_or_app; right. left. reflexivity.
Qed.

Lemma started_clean_run (inputs : list TickInput) :
  forall (l l' : Locals) (w w' : World),
    detect_motion inputs l w = (Ret l', w') -> started_clean w -> started_clean w'.
Proof.
  induction inputs as [| i rest IH]; intros l l' w w'; cbn [detect_motion bind ret Monad_M].
  - intros [= _ <-]. auto.
  - destruct (loop_body i l w) as [[l1 | e] w1] eqn:Hbody; [| discriminate].
    intros Hrest Hinv. apply (IH l1 l' w1 w' Hrest).
    exact (started_clean_tick i l l1 w w1 Hbody Hinv).
Qed.

(** X13. On a clock that is not negative when [main] starts, the start-up
    delay outlasts the cooldown counted from the initial 0: once the
    start-up has completed, the first tick that is a [Trigger] always
    actuates.  After any number of completed ticks the pump has run exactly
    if a record has been logged. *)
Theorem first_trigger_after_startup (awaits : Z -> await_outcome) (clock0 : Z)
    (inputs : list TickInput) (b : Boot) (l' : Locals) (w' : World) :
  0 <= clock0 ->
  main awaits clock0 inputs = (b, (Ret l', w')) ->
  boot_clock b = clock0 + 1000 * INITIALIZATION_TIME /\
  (In RelayOn (events w') <-> exists entry, In (FileAppend entry) (events w')).
Proof.
  intros Hclock0. unfold main.
  pose proof (startup_delay awaits clock0) as Hdelay.
  destruct (main_init awaits clock0) as [[[] | e] b0]; [| discriminate].
  intros [= <- Hrun].
  split; [exact Hdelay |].
  assert (Hinv : started_clean (initial_world (boot_clock b0))).
  { left. cbn [initial_world last_activation_time activations_count clock events].
    split; [reflexivity | split; [reflexivity | split; [lia | intros e []]]]. }
  apply (started_clean_run inputs _ _ _ _ Hrun) in Hinv.
  destruct Hinv as [(_ & _ & _ & Hplain) | (Hon & Hlog)].
  - split.
    + intros Hon. apply Hplain in Hon. destruct Hon as [Habs _]. discriminate Habs.
    + intros (entry & Hlog). apply Hplain in Hlog. destruct Hlog as [_ Habs]. discriminate Habs.
  - tauto.
Qed.

End Rounding.

(** * Runs at a format that holds their values exactly *)

Lemma unrounded_monotone : forall x y : Q, (x <= y -> unrounded x <= unrounded y)%Q.
Proof. intros x y Hle. exact Hle. Qed.

Lemma unrounded_integer :
  forall n : Z, Z.abs n <= 65536 -> (unrounded (inject_Z n) == inject_Z n)%Q.
Proof. intros n _. apply Qeq_refl. Qed.

Example classify_moving :
  classify unrounded 1 (Num 75) [Num 50; Num 52; Num 51; Num 53; Num 75]
    = Ret (Trigger (Num 75)).
Proof. reflexivity. Qed.

Example classify_still :
  classify unrounded 1 (Num 54) [Num 50; Num 51; Num 52; Num 53; Num 54]
    = Ret (Idle (Num 54)).
Proof. reflexivity. Qed.

Example loop_body_first :
  loop_body unrounded (sample 1 50) initial_locals (initial_world 120000) =
  (Ret (mkLocals [Num 50] "Never"),
   mkWorld 120100 false
     [OledFill 0; OledText "^_^" 56 0; OledText "Status: watching" 0 20;
      OledText "Last: Never" 0 30; OledShow; Sleep 100] 0 0 0).
Proof. reflexivity. Qed.

(** C7 as stated fails: presence and a reading of exactly 10 is classified
    [NoEvent], on an empty window or after larger readings, and whatever the
    rounding, no subtraction being reached; a reading just inside the band
    is classified. *)
Lemma distance_ten_is_no_event :
  classify unrounded 1 (Num 10) (push [] (Num 10)) = Ret NoEvent /\
  classify unrounded 1 (Num 10) (push [Num 50; Num 40] (Num 10)) = Ret NoEvent /\
  (forall round : Q -> Q,
      classify round 1 (Num 10) (push [Num 50; Num 40] (Num 10)) = Ret NoEvent) /\
  classify unrounded 1 (Num (21 # 2)) (push [Num 50; Num 40] (Num (21 # 2)))
    = Ret (Trigger (Num (21 # 2))).
Proof. repeat split. Qed.

(** C9 as stated fails: with presence, a reading of exactly 10, which the
    band [10, 100) of the specification holds, and a window whose spread
    is 40, the tick is [NoEvent] and not a [Trigger], whatever the
    rounding. *)
Lemma spread_needs_open_band :
  (10 <= 10 /\ 10 < 100)%Q /\
  (20 < spec_spread (values (push [Num 50] (Num 10))))%Q /\
  classify unrounded 1 (Num 10) (push [Num 50] (Num 10)) = Ret NoEvent /\
  (forall round : Q -> Q,
      classify round 1 (Num 10) (push [Num 50] (Num 10)) = Ret NoEvent).
Proof. repeat split; discriminate. Qed.

Lemma spread_rule_witness :
  in_band 75 /\
  ~ In PyNone (push (map Num [50; 52; 51; 53]%Q) (Num 75)) /\
  classify unrounded 1 (Num 75) (push (map Num [50; 52; 51; 53]%Q) (Num 75))
    = Ret (Trigger (Num 75)).
Proof.
  assert (Hband : in_band 75) by (split; reflexivity).
  assert (Hnum : ~ In PyNone (push (map Num [50; 52; 51; 53]%Q) (Num 75))).
  { simpl. intros [H | [H | [H | [H | [H | []]]]]]; discriminate H. }
  destruct (spread_rule unrounded unrounded_monotone unrounded_integer
              75 (map Num [50; 52; 51; 53]%Q) Hband Hnum)
    as ((event & Hrun & Hmoved & _) & _).
  split; [exact Hband | split; [exact Hnum |]].
  rewrite Hrun. f_equal. apply Hmoved. reflexivity.
Defined.




Lemma classifier_raises_witness :
  classify unrounded 1 (Num 50) (push [PyNone; Num 40] (Num 50)) = Raise TypeError /\
  classify unrounded 0 (Num 50) (push [PyNone; Num 40] (Num 50)) = Ret NoEvent.
Proof.
  split; [| reflexivity].
  apply (classifier_raises unrounded 1 (Num 50) [PyNone; Num 40] TypeError).
  repeat split. right. exists 50%Q. repeat split. left. reflexivity.
Defined.

Lemma quiet_tick_changes_nothing_witness :
  events (run (loop_body unrounded (missing 0) (mkLocals [PyNone] "Never"))
              (mkWorld 7000 false [] 3 2 0))
    = status_events "watching" "Never" ++ [Sleep 100] /\
  activations_count
    (run (loop_body unrounded (missing 0) (mkLocals [PyNone] "Never"))
         (mkWorld 7000 false [] 3 2 0)) = 2.
Proof.
  destruct (quiet_tick_changes_nothing unrounded (missing 0) (mkLocals [PyNone] "Never")
              (mkLocals [PyNone; PyNone] "Never")
              (mkWorld 7000 false [] 3 2 0)
              (run (loop_body unrounded (missing 0) (mkLocals [PyNone] "Never"))
                   (mkWorld 7000 false [] 3 2 0))
              NoEvent eq_refl eq_refl ltac:(discriminate))
    as (_ & _ & Hcount & _ & _ & Hevents & _).
  split; [exact Hevents | exact Hcount].
Defined.

Lemma trigger_tick_record_witness :
  loop_body unrounded (sample 1 75) (mkLocals [Num 50] "Never") (initial_world 120000) =
    (Ret (mkLocals [Num 50; Num 75] "00:02"),
     run (loop_body unrounded (sample 1 75) (mkLocals [Num 50] "Never"))
         (initial_world 120000)) /\
  clock (run (loop_body unrounded (sample 1 75) (mkLocals [Num 50] "Never"))
             (initial_world 120000))
    = 120000 + 100 + (if actuates (initial_world 120000)
                      then 1000 * PUMP_ACTIVATION_TIME else 0).
Proof.
  assert (Hbody :
    loop_body unrounded (sample 1 75) (mkLocals [Num 50] "Never") (initial_world 120000) =
    (Ret (mkLocals [Num 50; Num 75] "00:02"),
     run (loop_body unrounded (sample 1 75) (mkLocals [Num 50] "Never"))
         (initial_world 120000)))
    by (vm_compute; reflexivity).
  assert (Hclass :
    classify unrounded (pir_value (sample 1 75)) (distance (sample 1 75))
      (push (last_distances (mkLocals [Num 50] "Never")) (distance (sample 1 75)))
    = Ret (Trigger (Num 75))) by (vm_compute; reflexivity).
  split; [exact Hbody |].
  exact (proj1 (proj2 (proj2 (trigger_tick_record _ _ _ _ _ _ _ Hbody Hclass)))).
Defined.

Lemma every_actuation_is_logged_witness :
  detect_motion unrounded [sample 1 50; sample 1 75; sample 1 50] initial_locals
                (initial_world 120000)
    = (Ret (mkLocals [Num 50; Num 75; Num 50] "00:02"), three_ticks unrounded) /\
  exists extra : list io_event,
    events (three_ticks unrounded) = events (initial_world 120000) ++ extra /\
    occurrences is_relay_on extra = occurrences is_relay_off extra.
Proof.
  assert (Hrun :
    detect_motion unrounded [sample 1 50; sample 1 75; sample 1 50] initial_locals
                  (initial_world 120000)
    = (Ret (mkLocals [Num 50; Num 75; Num 50] "00:02"), three_ticks unrounded))
    by (vm_compute; reflexivity).
  split; [exact Hrun |].
  destruct (every_actuation_is_logged _ _ _ _ _ _ Hrun) as (extra & Hevents & Hbal & _).
  exists extra. split; assumption.
Defined.

Lemma loop_keeps_invariants_witness :
  reachable (initial_world 120000) /\
  (List.length (last_distances initial_locals) <= 5)%nat /\
  relay (three_ticks unrounded) = false.
Proof.
  assert (Hrun :
    detect_motion unrounded [sample 1 50; sample 1 75; sample 1 50] initial_locals
                  (initial_world 120000)
    = (Ret (mkLocals [Num 50; Num 75; Num 50] "00:02"), three_ticks unrounded))
    by (vm_compute; reflexivity).
  assert (Hlen : (List.length (last_distances initial_locals) <= 5)%nat) by (simpl; lia).
  split; [apply reach_boot | split; [exact Hlen |]].
  exact (proj1 (loop_keeps_invariants _ _ _ _ _ _ (reach_boot 120000) Hlen Hrun)).
Defined.

Lemma crash_leaves_pump_off_witness :
  reachable (initial_world 120000) /\
  detect_motion unrounded [missing 0; sample 1 50] initial_locals (initial_world 120000)
    = (Raise TypeError,
       run (detect_motion unrounded [missing 0; sample 1 50] initial_locals)
           (initial_world 120000)) /\
  relay (run (detect_motion unrounded [missing 0; sample 1 50] initial_locals)
             (initial_world 120000))
    = false.
Proof.
  assert (Hrun :
    detect_motion unrounded [missing 0; sample 1 50] initial_locals (initial_world 120000)
    = (Raise TypeError,
       run (detect_motion unrounded [missing 0; sample 1 50] initial_locals)
           (initial_world 120000)))
    by (vm_compute; reflexivity).
  split; [apply reach_boot | split; [exact Hrun |]].
  apply (proj2 (crash_leaves_pump_off _ _ _ _ _ _ (reach_boot 120000) Hrun)).
  discriminate.
Defined.

Lemma first_trigger_after_startup_witness :
  0 <= 0 /\
  main unrounded (fun _ => Resumed) 0 [sample 1 50; sample 1 75] =
    (fst (main unrounded (fun _ => Resumed) 0 [sample 1 50; sample 1 75]),
     (Ret (mkLocals [Num 50; Num 75] "00:01"),
      snd (snd (main unrounded (fun _ => Resumed) 0 [sample 1 50; sample 1 75])))) /\
  (In RelayOn
      (events (snd (snd (main unrounded (fun _ => Resumed) 0 [sample 1 50; sample 1 75]))))
   <-> exists entry,
         In (FileAppend entry)
            (events (snd (snd (main unrounded (fun _ => Resumed) 0
                                    [sample 1 50; sample 1 75]))))).
Proof.
  assert (Hrun :
    main unrounded (fun _ => Resumed) 0 [sample 1 50; sample 1 75] =
    (fst (main unrounded (fun _ => Resumed) 0 [sample 1 50; sample 1 75]),
     (Ret (mkLocals [Num 50; Num 75] "00:01"),
      snd (snd (main unrounded (fun _ => Resumed) 0 [sample 1 50; sample 1 75])))))
    by (vm_compute; reflexivity).
  split; [lia | split; [exact Hrun |]].
  exact (proj2 (first_trigger_after_startup _ _ 0 _ _ _ _ ltac:(lia) Hrun)).
Defined.
